(** * URL completion provider of the Defold extension

    A shallow embedding of [src/completion/url-completion-provider.ts]:
    the trigger test [showUrlCompletion], the two index lookups behind
    [completionIfAttachedToGameObject] and [completionIfAttachedToCollection],
    the recursive flattening [instanceCompletionItem] and the formatter
    [componentCompletionItem], together with the provider entry point
    [provideCompletionItems].

    JavaScript strings are modelled by [string]; arrays, and the [Set] of child
    instances read through the spread [[...instance.instances]], by [list]
    in iteration order.

    The second half covers the command that unpacks the archived assets:
    [readArchivedAssetFilenames], [assetAnnotationsAreUpToDate],
    [shouldSkipAsset], [toAssetInfo], [readAssetInfoFromArchive], the edit
    made by [maybeEnhanceUnzippedAsset] and the effect of a run of the
    command on the persisted state. *)

From Stdlib Require Import List String Ascii Bool Arith ZArith Lia Permutation.
Import ListNotations.
Local Open Scope string_scope.
Local Open Scope list_scope.
Local Open Scope nat_scope.

(** ** JavaScript string primitives used by the provider *)

Module Js.
Local Open Scope string_scope.

(** [s.endsWith(t)]: the last [length t] characters of [s] are [t]. *)
Definition endsWith (s t : string) : bool :=
  let ls := String.length s in
  let lt := String.length t in
  if (lt <=? ls)%nat then String.eqb (substring (ls - lt) lt s) t else false.

(** [s.substring(0, n)]: the first [n] characters, clamped to the length. *)
Definition substring0 (n : nat) (s : string) : string := substring 0 n s.

(** The character class [\w] of a regular expression without flags:
    [A-Za-z0-9_]. *)
Definition isWordChar (c : ascii) : bool :=
  let n := nat_of_ascii c in
  (((65 <=? n) && (n <=? 90))        (* A-Z *)
   || ((97 <=? n) && (n <=? 122))    (* a-z *)
   || ((48 <=? n) && (n <=? 57))     (* 0-9 *)
   || (n =? 95))%nat.                (* _ *)

Definition dquote : ascii := ascii_of_nat 34.
Definition colon : ascii := ascii_of_nat 58.

(** The one-character string holding a double quote. *)
Definition quote : string := String dquote EmptyString.

(** The tail [\w*:$] of the pattern, anchored at the head of [s]. *)
Fixpoint wordsColonEnd (s : string) : bool :=
  match s with
  | EmptyString => false
  | String c rest =>
      if isWordChar c then wordsColonEnd rest
      else Ascii.eqb c colon && String.eqb rest EmptyString
  end.

(** The whole pattern (a double quote, then [\w+:$]) anchored at the
    head of [s]. *)
Definition quoteWordsColonEnd (s : string) : bool :=
  match s with
  | String q (String c rest) =>
      Ascii.eqb q dquote && isWordChar c && wordsColonEnd rest
  | _ => false
  end.

(** [test] of the pattern of line 33 on [s]: the pattern is tried at
    every start offset. *)
Fixpoint testQuoteWordsColon (s : string) : bool :=
  quoteWordsColonEnd s
  || match s with
     | EmptyString => false
     | String _ rest => testQuoteWordsColon rest
     end.

(** What the pattern says, in words: some double quote is followed by one
    or more word characters, a colon, and the end of the text. *)
Definition allWordChars (w : string) : Prop :=
  forall c, In c (list_ascii_of_string w) -> isWordChar c = true.

Definition QuoteWordsColonAtEnd (s : string) : Prop :=
  exists pre w,
    s = pre ++ String dquote (w ++ String colon EmptyString)
    /\ w <> EmptyString /\ allWordChars w.

Definition EndsWith (s t : string) : Prop := exists pre, s = pre ++ t.

End Js.

(** ** The entities of the project index *)

(** [IDefoldComponent]: a leaf attached to a game object. *)
Module Component.
Record t : Type := make {
  url : string;
  type : string;
  filename : string;
  id : string
}.
End Component.
Definition IDefoldComponent : Type := Component.t.

(** [IDefoldInstance]: a game object or collection placed in a collection,
    with its child instances (in the iteration order of the source's [Set])
    and the components it owns. *)
Module Instance.
#[warnings="-register-all"]
Inductive t : Type := make {
  url : string;
  type : string;
  filename : string;
  instances : list t;
  components : list IDefoldComponent
}.
End Instance.
Definition IDefoldInstance : Type := Instance.t.

(** ** Completion items of the host editor *)

(** [vscode.CompletionItemKind], a numeric enumeration of 27 members that
    starts with [Text = 0], [Method = 1] and [Function = 2]. *)
Definition CompletionItemKind : Type := nat.
Definition Text : CompletionItemKind := 0.

(** The [CompletionItemLabel] object passed to the constructor. *)
Record CompletionItemLabel : Type := {
  label : string;
  detail : string;
  description : string
}.

(** [vscode.CompletionItem]: only the members the provider touches.
    [filterText] is undefined until it is assigned. *)
Record CompletionItem : Type := {
  itemLabel : CompletionItemLabel;
  kind : CompletionItemKind;
  filterText : option string
}.

(** [new vscode.CompletionItem(label, kind)] *)
Definition newCompletionItem (l : CompletionItemLabel) (k : CompletionItemKind)
  : CompletionItem :=
  {| itemLabel := l; kind := k; filterText := None |}.

(** [item.filterText = s] *)
Definition setFilterText (item : CompletionItem) (s : string) : CompletionItem :=
  {| itemLabel := itemLabel item; kind := kind item; filterText := Some s |}.

(** ** The formatter and the recursive expansion *)

Definition componentCompletionItem (component : IDefoldComponent) : CompletionItem :=
  let item :=
    newCompletionItem
      {| label := Component.url component;
         detail := (" " ++ Component.type component)%string;
         description := Component.filename component |}
      Text in
  setFilterText item (Component.id component).

(** The item built for the instance itself, lines 51-56. *)
Definition instanceItem (instance : IDefoldInstance) : CompletionItem :=
  let item :=
    newCompletionItem
      {| label := Instance.url instance;
         detail := (" " ++ Instance.type instance)%string;
         description := Instance.filename instance |}
      Text in
  setFilterText item (Instance.url instance).

Fixpoint instanceCompletionItem (instance : IDefoldInstance) : list CompletionItem :=
  match instance with
  | Instance.make u ty f insts comps =>
      instanceItem (Instance.make u ty f insts comps)
        :: flat_map instanceCompletionItem insts
        ++ map componentCompletionItem comps
  end.

(** ** The project index and the lookups made against it *)

(** One call made to the index, with the path it was given. *)
Inductive Lookup : Type :=
| GameObjectComponents (path : string)
| CollectionInstances (path : string).

Module DefoldIndex.

(** The two queries of [DefoldIndex] that the provider consumes.  Their
    bodies live in the indexer; here an index is whatever answers them. *)
Record t : Type := make {
  gameObjectComponents : string -> list IDefoldComponent;
  collectionInstances : string -> list IDefoldInstance
}.

(** A computation that reads the singleton [DefoldIndex.instance]: run on
    an index it gives a value and the lookups it made, oldest first. *)
Definition Query (A : Type) : Type := t -> A * list Lookup.

Definition ret {A : Type} (a : A) : Query A := fun _ => (a, []).

Definition bind {A B : Type} (m : Query A) (k : A -> Query B) : Query B :=
  fun index =>
    let (a, made) := m index in
    let (b, made') := k a index in
    (b, made ++ made').

(** [DefoldIndex.instance.findGameObjectComponents(path)] *)
Definition findGameObjectComponents (path : string)
  : Query (list IDefoldComponent) :=
  fun index => (gameObjectComponents index path, [GameObjectComponents path]).

(** [DefoldIndex.instance.findCollectionInstances(path)] *)
Definition findCollectionInstances (path : string)
  : Query (list IDefoldInstance) :=
  fun index => (collectionInstances index path, [CollectionInstances path]).

(** The value a computation returns on an index, and the lookups it makes. *)
Definition result {A : Type} (m : Query A) (index : t) : A := fst (m index).
Definition lookups {A : Type} (m : Query A) (index : t) : list Lookup :=
  snd (m index).

End DefoldIndex.

Notation "x <- m ;; k" := (DefoldIndex.bind m (fun x => k))
  (at level 61, m at next level, right associativity).

(** ** The host editor's document model *)

Record Uri : Type := { path : string }.
Record Position : Type := { line : nat; character : nat }.
Record TextLine : Type := { text : string }.
Record TextDocument : Type := { uri : Uri; lineAt : Position -> TextLine }.

(** ** The provider *)

(** The text in front of the caret, as line 32 computes it. *)
Definition linePrefixOf (document : TextDocument) (position : Position) : string :=
  Js.substring0 (character position) (text (lineAt document position)).

Definition showUrlCompletion (document : TextDocument) (position : Position) : bool :=
  if negb (Js.endsWith (path (uri document)) ".script") then false
  else
    let linePrefix := linePrefixOf document position in
    if Js.endsWith linePrefix (String Js.dquote EmptyString)
       || Js.endsWith linePrefix (String Js.dquote "#")
       || Js.testQuoteWordsColon linePrefix
    then true
    else false.

Definition completionIfAttachedToGameObject (scriptPath : string)
  : DefoldIndex.Query (list CompletionItem) :=
  components <- DefoldIndex.findGameObjectComponents ("/" ++ scriptPath)%string ;;
  DefoldIndex.ret (map componentCompletionItem components).

Definition completionIfAttachedToCollection (script : string)
  : DefoldIndex.Query (list CompletionItem) :=
  instances <- DefoldIndex.findCollectionInstances ("/" ++ script)%string ;;
  DefoldIndex.ret (flat_map instanceCompletionItem instances).

(** The resolver: the expression of line 15 that builds [items]. *)
Definition resolve (script : string) : DefoldIndex.Query (list CompletionItem) :=
  fromGameObject <- completionIfAttachedToGameObject script ;;
  fromCollection <- completionIfAttachedToCollection script ;;
  DefoldIndex.ret (fromGameObject ++ fromCollection).

Section Provider.

(** [vscode.workspace.asRelativePath], a service of the host. *)
Variable asRelativePath : Uri -> string.

(** [None] is the [undefined] the provider hands back to the host. *)
Definition provideCompletionItems (document : TextDocument) (position : Position)
  : DefoldIndex.Query (option (list CompletionItem)) :=
  if negb (showUrlCompletion document position) then DefoldIndex.ret None
  else
    let script := asRelativePath (uri document) in
    items <- resolve script ;;
    if negb (List.length items =? 0) then DefoldIndex.ret (Some items)
    else DefoldIndex.ret None.

End Provider.

(** ** The index as an object graph

    In the running extension an instance is an object and [instances] holds
    references to other objects, so nothing in the types keeps an index from
    pointing back at one of its ancestors.  Here objects live in a heap
    addressed by references, and the depth of the call stack is bounded. *)

Module ObjectGraph.

Definition Ref : Type := nat.

Record InstanceObject : Type := {
  url : string;
  type : string;
  filename : string;
  instances : list Ref;
  components : list IDefoldComponent
}.

Definition Heap : Type := Ref -> InstanceObject.

(** [flatMap] over calls that may exhaust the stack. *)
Fixpoint flatMap {A B : Type} (f : A -> option (list B)) (l : list A)
  : option (list B) :=
  match l with
  | [] => Some []
  | x :: rest =>
      match f x with
      | None => None
      | Some ys =>
          match flatMap f rest with
          | None => None
          | Some zs => Some (ys ++ zs)
          end
      end
  end.

Definition instanceItem (o : InstanceObject) : CompletionItem :=
  let item :=
    newCompletionItem
      {| label := url o;
         detail := (" " ++ type o)%string;
         description := filename o |}
      Text in
  setFilterText item (url o).

(** [instanceCompletionItem] on a reference, with [stack] frames left;
    [None] is the overflow of the call stack. *)
Fixpoint instanceCompletionItem (heap : Heap) (stack : nat) (instance : Ref)
  : option (list CompletionItem) :=
  match stack with
  | 0 => None
  | S stack' =>
      let o := heap instance in
      match flatMap (instanceCompletionItem heap stack') (instances o) with
      | None => None
      | Some nested =>
          Some (instanceItem o :: nested ++ map componentCompletionItem (components o))
      end
  end.

(** The tree [t] is what one sees walking the heap from [r]. *)
#[warnings="-register-all"]
Inductive Unfolds (heap : Heap) : Ref -> IDefoldInstance -> Prop :=
| unfolds r u ty f insts comps :
    u = url (heap r) ->
    ty = type (heap r) ->
    f = filename (heap r) ->
    comps = components (heap r) ->
    Forall2 (Unfolds heap) (instances (heap r)) insts ->
    Unfolds heap r (Instance.make u ty f insts comps).

(** Nesting depth of a tree of instances: the frames its expansion needs. *)
Fixpoint height (t : IDefoldInstance) : nat :=
  match t with
  | Instance.make _ _ _ insts _ => S (list_max (map height insts))
  end.

(** An index whose only instance lists itself as its child. *)
Definition selfNested : Heap :=
  fun _ =>
    {| url := "/go"; type := "go"; filename := "/main/main.collection";
       instances := [0]; components := [] |}.

End ObjectGraph.

(** ** Concrete projects used to exercise the provider *)

Module Scenario.
Local Open Scope string_scope.

(** A document whose every line reads [content], and the caret placed
    after [n] characters of the first line. *)
Definition document (file content : string) : TextDocument :=
  {| uri := {| path := file |}; lineAt := fun _ => {| text := content |} |}.

Definition caret (n : nat) : Position := {| line := 0; character := n |}.

(** The trigger test with the caret at the end of [content]. *)
Definition triggers (file content : string) : bool :=
  showUrlCompletion (document file content) (caret (String.length content)).

Definition openQuote : string := "local x = go.get(" ++ Js.quote.
Definition openFragment : string := "local x = go.get(" ++ Js.quote ++ "#".
Definition wordThenFragment : string := "local x = go.get(" ++ Js.quote ++ "go#".
Definition openScheme : string := "local x = go.get(" ++ Js.quote ++ "go:".
Definition closedQuote : string :=
  "local x = go.get(" ++ Js.quote ++ "go" ++ Js.quote ++ ")".

(** A collection with one game object that owns a sprite and a script
    and nests one game object with a single sprite. *)
Definition gunSprite : IDefoldComponent :=
  Component.make "/player/gun#sprite" "sprite" "/main/gun.go" "sprite".
Definition playerSprite : IDefoldComponent :=
  Component.make "/player#sprite" "sprite" "/main/player.go" "sprite".
Definition playerScript : IDefoldComponent :=
  Component.make "/player#script" "script" "/main/player.script" "script".

Definition gun : IDefoldInstance :=
  Instance.make "/player/gun" "go" "/main/gun.go" [] [gunSprite].
Definition player : IDefoldInstance :=
  Instance.make "/player" "go" "/main/player.go" [gun] [playerSprite; playerScript].

(** The script belongs to the collection only. *)
Definition collectionIndex : DefoldIndex.t :=
  DefoldIndex.make
    (fun _ => [])
    (fun file => if String.eqb file "/main/player.script" then [player] else []).

(** The index after other files of the project changed: what it holds for
    the script is as in [collectionIndex]. *)
Definition collectionIndex' : DefoldIndex.t :=
  DefoldIndex.make
    (fun file =>
       if String.eqb file "/main/enemy.script" then [gunSprite] else [])
    (fun file =>
       if String.eqb file "/main/player.script" then [player]
       else if String.eqb file "/main/enemy.script" then [gun]
       else []).

(** The script belongs to a game object file with two components. *)
Definition gameObjectIndex : DefoldIndex.t :=
  DefoldIndex.make
    (fun file =>
       if String.eqb file "/main/player.script"
       then [playerSprite; playerScript] else [])
    (fun _ => []).

(** Nothing in the project refers to the script. *)
Definition emptyIndex : DefoldIndex.t :=
  DefoldIndex.make (fun _ => []) (fun _ => []).

(** The same collection as objects: reference 0 is the player and every
    other reference the gun. *)
Definition collectionHeap : ObjectGraph.Heap :=
  fun r =>
    match r with
    | 0 =>
        {| ObjectGraph.url := "/player"; ObjectGraph.type := "go";
           ObjectGraph.filename := "/main/player.go";
           ObjectGraph.instances := [1];
           ObjectGraph.components := [playerSprite; playerScript] |}
    | _ =>
        {| ObjectGraph.url := "/player/gun"; ObjectGraph.type := "go";
           ObjectGraph.filename := "/main/gun.go";
           ObjectGraph.instances := [];
           ObjectGraph.components := [gunSprite] |}
    end.

(** The host strips the leading separator of the path of the file. *)
Definition asRelativePath (u : Uri) : string :=
  match path u with
  | String _ rest => rest
  | EmptyString => EmptyString
  end.

End Scenario.

(** ** Registration of the provider *)

(** The language selector and the trigger characters handed to
    [registerCompletionItemProvider], line 6 and line 22. *)
Definition providerLanguage : string := "lua".
Definition triggerCharacters : list ascii := [Js.dquote; Js.colon].

(** ** Measures and reachability on a tree of instances *)

Module Tree.

(** The instances of a tree, the root included. *)
Fixpoint instanceCount (t : IDefoldInstance) : nat :=
  match t with
  | Instance.make _ _ _ insts _ => S (list_sum (map instanceCount insts))
  end.

(** The components owned anywhere in a tree. *)
Fixpoint componentCount (t : IDefoldInstance) : nat :=
  match t with
  | Instance.make _ _ _ insts comps =>
      List.length comps + list_sum (map componentCount insts)
  end.

(** [Reaches t d]: [d] is [t] or nested in it at some depth. *)
Inductive Reaches : IDefoldInstance -> IDefoldInstance -> Prop :=
| reaches_self t : Reaches t t
| reaches_child t child d :
    In child (Instance.instances t) -> Reaches child d -> Reaches t d.

End Tree.

(** ** More JavaScript primitives, used by the command that unpacks assets

    A character stands for a UTF-16 code unit below 256. *)

Module JsText.
Local Open Scope string_scope.

(** [toLowerCase] on one code unit: the capitals [A-Z] and the capitals of
    the Latin-1 block, which lie 32 below their small letters. *)
Definition toLowerChar (c : ascii) : ascii :=
  let n := nat_of_ascii c in
  if (((65 <=? n) && (n <=? 90))
      || ((192 <=? n) && (n <=? 222) && negb (n =? 215)))%nat
  then ascii_of_nat (n + 32)
  else c.

Fixpoint toLowerCase (s : string) : string :=
  match s with
  | EmptyString => EmptyString
  | String c rest => String (toLowerChar c) (toLowerCase rest)
  end.

(** [s.startsWith(t)] *)
Definition startsWith (s t : string) : bool := prefix t s.

(** A string counts as true in a condition unless it is empty. *)
Definition truthy (s : string) : bool := negb (String.eqb s EmptyString).

(** [l.includes(x)] on an array of strings. *)
Definition includes (l : list string) (x : string) : bool :=
  existsb (String.eqb x) l.

(** [l.findIndex(p)]: the first position where [p] holds, or [-1]. *)
Fixpoint findIndexFrom {A : Type} (p : A -> bool) (l : list A) (i : Z) : Z :=
  match l with
  | [] => (-1)%Z
  | x :: rest => if p x then i else findIndexFrom p rest (i + 1)%Z
  end.

Definition findIndex {A : Type} (p : A -> bool) (l : list A) : Z :=
  findIndexFrom p l 0%Z.

(** [s] without its first [n] characters. *)
Fixpoint drop (n : nat) (s : string) : string :=
  match n, s with
  | 0, _ => s
  | S n', String _ rest => drop n' rest
  | S _, EmptyString => EmptyString
  end.

(** [s.replace(pat, rep)] with a string pattern and a replacement free of
    dollar signs: the leftmost occurrence of [pat] becomes [rep]. *)
Fixpoint replace (pat rep s : string) : string :=
  if prefix pat s then rep ++ drop (String.length pat) s
  else
    match s with
    | EmptyString => EmptyString
    | String c rest => String c (replace pat rep rest)
    end.

(** [pat] occurs somewhere in [s]. *)
Definition Contains (s pat : string) : Prop :=
  exists pre post, s = pre ++ pat ++ post.

End JsText.

(** ** The command that unpacks the archived assets *)

(** [IAsset], an entry of the persisted state.  The name and the version
    are copied from an archive description and are undefined when that
    description is empty. *)
Module Asset.
Record t : Type := make {
  name : option string;
  version : option string;
  sourceArchiveFilename : string
}.
End Asset.
Definition IAsset : Type := Asset.t.

(** [IState]: of the persisted state the command touches [assets] only. *)
Record IState : Type := { assets : list IAsset }.

(** [IArchiveAsset].  Every member may be undefined, since a failed read is
    answered with the empty object cast to this interface (line 245). *)
Module ArchiveAsset.
Record t : Type := make {
  path : option string;
  name : option string;
  version : option string;
  rootDirectory : option string;
  includeDirectories : option (list string)
}.

(** [{} as IArchiveAsset] *)
Definition empty : t := make None None None None None.
End ArchiveAsset.
Definition IArchiveAsset : Type := ArchiveAsset.t.

Module FileType.
(** [vscode.FileType], a numeric enumeration whose values combine as bits. *)
Definition t : Type := nat.
Definition Unknown : t := 0.
Definition File : t := 1.
Definition Directory : t := 2.
Definition SymbolicLink : t := 64.
End FileType.

(** An entry of [readDirectory]: a name and a file type. *)
Definition DirEntry : Type := (string * FileType.t)%type.

Definition skipAssets : list string := ["extension-teal"%string].

(** Lines 120-129.  [listing] is what [readDirectory] answers for the folder
    of archives, [None] when it (or finding the folder) throws. *)
Definition readArchivedAssetFilenames (listing : option (list DirEntry))
  : list DirEntry :=
  match listing with
  | Some archiveFilenames =>
      filter (fun filename =>
                (snd filename =? FileType.File)
                && Js.endsWith (fst filename) ".zip")
             archiveFilenames
  | None => []
  end.

Definition assetAnnotationsAreUpToDate (state : IState) (filenames : list DirEntry)
  : bool :=
  if negb (List.length (assets state) =? List.length filenames) then false
  else
    let existingAssetFilenames := map Asset.sourceArchiveFilename (assets state) in
    let someAreDifferent :=
      existsb (fun filename =>
                 negb (JsText.includes existingAssetFilenames (fst filename)))
              filenames in
    let allAreUpToDate := negb someAreDifferent in
    allAreUpToDate.

(** Lines 191-194.  [None] is the [TypeError] raised by [toLowerCase] on an
    undefined name; the optional chaining keeps an undefined root directory
    from raising. *)
Definition shouldSkipAsset (archivedAsset : IArchiveAsset) : option bool :=
  let lowerName := option_map JsText.toLowerCase (ArchiveAsset.name archivedAsset) in
  let assetName :=
    match option_map JsText.toLowerCase (ArchiveAsset.rootDirectory archivedAsset) with
    | Some lowerRoot => if JsText.truthy lowerRoot then Some lowerRoot else lowerName
    | None => lowerName
    end in
  match assetName with
  | None => None
  | Some assetName =>
      Some (negb (JsText.findIndex (fun name => JsText.startsWith assetName name)
                    skipAssets =? -1)%Z)
  end.

Definition toAssetInfo (unzippedAsset : IArchiveAsset) (filename : DirEntry) : IAsset :=
  {| Asset.name := ArchiveAsset.name unzippedAsset;
     Asset.version := ArchiveAsset.version unzippedAsset;
     Asset.sourceArchiveFilename := fst filename |}.

(** What reading [game.project] from an archive yields when nothing throws:
    the title, the version and the include directories of the project, and
    the root directory the archive manager found, if any. *)
Record ArchiveRead : Type := {
  title : string;
  projectVersion : string;
  archiveRootDirectory : option string;
  libraryIncludeDirs : list string
}.

(** Lines 231-247, with [read] the outcome of the [try] block. *)
Definition readAssetInfoFromArchive (path : string) (read : option ArchiveRead)
  : IArchiveAsset :=
  match read with
  | Some r =>
      {| ArchiveAsset.path := Some path;
         ArchiveAsset.name := Some (title r);
         ArchiveAsset.version := Some (projectVersion r);
         ArchiveAsset.rootDirectory :=
           Some (match archiveRootDirectory r with
                 | Some d => if JsText.truthy d then d else EmptyString
                 | None => EmptyString
                 end);
         ArchiveAsset.includeDirectories := Some (libraryIncludeDirs r) |}
  | None => ArchiveAsset.empty
  end.

(** The edit made to [druid.lua], lines 167-169. *)
Definition druidMutator (content : string) : string :=
  JsText.replace "local M = {}" "local M = {} ---@type druid" content.

(** Lines 159-174.  [None] is the [TypeError] raised on line 166 when the
    asset is the druid library and has no first include directory: the
    path is joined outside of any [try].  [Some (Some dir)] is the edit of
    [druid.lua] under [dir], whose own failures line 181 swallows, and
    [Some None] leaves the asset as it was unpacked.  The folder of the
    workspace is there whenever an archive was listed. *)
Definition maybeEnhanceUnzippedAsset (unzippedAsset : IArchiveAsset)
  : option (option string) :=
  match ArchiveAsset.name unzippedAsset with
  | None => Some None
  | Some name =>
      if negb (JsText.truthy name) then Some None
      else if String.eqb (JsText.toLowerCase name) "druid" then
        match ArchiveAsset.includeDirectories unzippedAsset with
        | Some (dir :: _) => Some (Some dir)
        | Some [] => None
        | None => None
        end
      else Some None
  end.

(** What the loop of lines 100-112 does with one archive. *)
Inductive Step : Type :=
| Skipping (asset : IArchiveAsset)
| Extracting (asset : IArchiveAsset).

(** What a step records agrees with the test for skipped assets. *)
Definition stepAgrees (step : Step) : Prop :=
  match step with
  | Skipping asset => shouldSkipAsset asset = Some true
  | Extracting asset => shouldSkipAsset asset = Some false
  end.

(** The exceptions that leave the loop, with the archive at hand. *)
Inductive Raised : Type :=
| SkipTestRaised (filename : DirEntry)     (* line 102 *)
| EnhanceRaised (filename : DirEntry).     (* line 108, from line 166 *)

(** How the loop ends. *)
Inductive LoopEnd : Type :=
| Completed (gathered : list IAsset) (steps : list Step)
| Interrupted (cause : Raised).

(** How a run of the command ends. *)
Inductive Outcome : Type :=
| NotInitialized                       (* line 89 *)
| AlreadyUpToDate                      (* line 92 *)
| Saved (state : IState) (steps : list Step)  (* line 116 *)
| Thrown (cause : Raised).             (* an exception left the loop *)

Section UnzipDependencies.

(** The path on disk of an archive of the given name, and what reading the
    archive at a path yields; both are answered by the host. *)
Variable fsPath : string -> string.
Variable archives : string -> option ArchiveRead.

(** Lines 186-189. *)
Definition readAssetArchiveMetadata (filename : DirEntry) : IArchiveAsset :=
  let zipUri := fsPath (fst filename) in
  readAssetInfoFromArchive zipUri (archives zipUri).

(** The loop of lines 100-112 on the assets and steps gathered so far.
    Unpacking catches its own failures (lines 200-210) and acts on the disk
    only; the edit of the unpacked asset can raise. *)
Fixpoint extractEach (filenames : list DirEntry)
         (gathered : list IAsset) (steps : list Step) : LoopEnd :=
  match filenames with
  | [] => Completed gathered steps
  | filename :: rest =>
      let assetArchive := readAssetArchiveMetadata filename in
      match shouldSkipAsset assetArchive with
      | None => Interrupted (SkipTestRaised filename)
      | Some true =>
          extractEach rest
            (gathered ++ [toAssetInfo assetArchive filename])
            (steps ++ [Skipping assetArchive])
      | Some false =>
          match maybeEnhanceUnzippedAsset assetArchive with
          | None => Interrupted (EnhanceRaised filename)
          | Some _ =>
              extractEach rest
                (gathered ++ [toAssetInfo assetArchive filename])
                (steps ++ [Extracting assetArchive])
          end
      end
  end.

(** The exception, if any, that the body of the loop raises on one
    archive. *)
Definition raisedOn (filename : DirEntry) : option Raised :=
  let assetArchive := readAssetArchiveMetadata filename in
  match shouldSkipAsset assetArchive with
  | None => Some (SkipTestRaised filename)
  | Some true => None
  | Some false =>
      match maybeEnhanceUnzippedAsset assetArchive with
      | None => Some (EnhanceRaised filename)
      | Some _ => None
      end
  end.

(** In words: the archive cannot be read. *)
Definition Unreadable (filename : DirEntry) : Prop :=
  archives (fsPath (fst filename)) = None.

(** In words: the archive can be read, its asset is not skipped, its title
    is [druid] in some mix of capitals, and it names no include
    directory. *)
Definition DruidWithoutIncludeDirs (filename : DirEntry) : Prop :=
  exists r,
    archives (fsPath (fst filename)) = Some r
    /\ shouldSkipAsset (readAssetInfoFromArchive (fsPath (fst filename)) (Some r))
       = Some false
    /\ JsText.toLowerCase (title r) = "druid"%string
    /\ libraryIncludeDirs r = [].

(** The command of lines 87-117: [loaded] is what [StateMemento.load]
    answers and [listing] what [readDirectory] answers. *)
Definition unzipDependencies (loaded : option IState)
           (listing : option (list DirEntry)) : Outcome :=
  match loaded with
  | None => NotInitialized
  | Some state =>
      let filenames := readArchivedAssetFilenames listing in
      if assetAnnotationsAreUpToDate state filenames then AlreadyUpToDate
      else
        match extractEach filenames [] [] with
        | Completed gathered steps => Saved {| assets := gathered |} steps
        | Interrupted cause => Thrown cause
        end
  end.

End UnzipDependencies.

(** ** Concrete archives used to exercise the command *)

Module ArchiveScenario.
Local Open Scope string_scope.

Definition listing : list DirEntry :=
  [("druid.zip", FileType.File);
   ("notes.txt", FileType.File);
   ("cache.zip", FileType.Directory);
   ("linked.zip", FileType.File + FileType.SymbolicLink);
   ("teal.zip", FileType.File)].

Definition fsPath (name : string) : string := "/project/.internal/lib/" ++ name.

Definition druid : ArchiveRead :=
  {| title := "Druid"; projectVersion := "1.0";
     archiveRootDirectory := Some "druid-1.0";
     libraryIncludeDirs := ["druid"] |}.

Definition teal : ArchiveRead :=
  {| title := "Teal"; projectVersion := "0.9";
     archiveRootDirectory := Some "Extension-Teal-main";
     libraryIncludeDirs := ["teal"] |}.

(** Every archive can be read. *)
Definition archives (zip : string) : option ArchiveRead :=
  if String.eqb zip (fsPath "teal.zip") then Some teal else Some druid.

Definition bareDruid : ArchiveRead :=
  {| title := "DRUID"; projectVersion := "1.0";
     archiveRootDirectory := None;
     libraryIncludeDirs := [] |}.

(** [druid.zip] names no include directory and [teal.zip] cannot be read. *)
Definition bareDruidArchives (zip : string) : option ArchiveRead :=
  if String.eqb zip (fsPath "druid.zip") then Some bareDruid else None.

(** The archive [druid.zip] cannot be read. *)
Definition brokenArchives (zip : string) : option ArchiveRead :=
  if String.eqb zip (fsPath "druid.zip") then None else Some teal.

(** What a first run over [listing] saves when every archive can be read. *)
Definition savedState : IState :=
  {| assets :=
       [Asset.make (Some "Druid") (Some "1.0") "druid.zip";
        Asset.make (Some "Teal") (Some "0.9") "teal.zip"] |}.

Definition savedSteps : list Step :=
  [Extracting (readAssetInfoFromArchive (fsPath "druid.zip") (Some druid));
   Skipping (readAssetInfoFromArchive (fsPath "teal.zip") (Some teal))].

Definition druidSource : string :=
  "-- druid" ++ String (ascii_of_nat 10) "local M = {}"
  ++ String (ascii_of_nat 10) "return M".

End ArchiveScenario.

(** * Facts about the string primitives *)

Module JsFacts.
Import Js.
Local Open Scope string_scope.

Lemma string_length_app (a b : string) :
  String.length (a ++ b) = String.length a + String.length b.
Proof. induction a as [|c a IH]; simpl; [reflexivity | now rewrite IH]. Qed.

Lemma substring_all (s : string) : substring 0 (String.length s) s = s.
Proof. induction s as [|c s IH]; simpl; [reflexivity | now rewrite IH]. Qed.

Lemma substring_skip (pre t : string) :
  substring (String.length pre) (String.length t) (pre ++ t) = t.
Proof. induction pre as [|c pre IH]; simpl; [apply substring_all | exact IH]. Qed.

(** Cutting a string at [n] and gluing the pieces gives it back. *)
Lemma substring_split (s : string) (n m : nat) :
  n + m = String.length s -> s = substring 0 n s ++ substring n m s.
Proof.
  revert n m; induction s as [|c s IH]; intros n m H; simpl in H.
  - assert (n = 0) by lia; assert (m = 0) by lia; subst; reflexivity.
  - destruct n as [|n]; simpl.
    + destruct m as [|m]; [discriminate|].
      injection H as H. simpl. subst m. now rewrite substring_all.
    + injection H as H. f_equal. now apply IH.
Qed.

Lemma endsWith_EndsWith (s t : string) : endsWith s t = true <-> EndsWith s t.
Proof.
  unfold endsWith, EndsWith. split.
  - destruct (Nat.leb_spec (String.length t) (String.length s)) as [Hle|Hlt];
      [|discriminate].
    intros H. apply String.eqb_eq in H.
    exists (substring 0 (String.length s - String.length t) s).
    pose proof (substring_split s (String.length s - String.length t)
                  (String.length t)) as E.
    rewrite H in E. apply E. lia.
  - intros [pre ->]. rewrite string_length_app.
    destruct (Nat.leb_spec (String.length t)
                (String.length pre + String.length t)) as [_|Hlt]; [|lia].
    replace (String.length pre + String.length t - String.length t)
      with (String.length pre) by lia.
    rewrite substring_skip. apply String.eqb_refl.
Qed.

Lemma colon_not_word : isWordChar colon = false.
Proof. reflexivity. Qed.

Lemma allWordChars_nil : allWordChars EmptyString.
Proof. intros c []. Qed.

Lemma allWordChars_cons (c : ascii) (w : string) :
  allWordChars (String c w) <-> isWordChar c = true /\ allWordChars w.
Proof.
  unfold allWordChars; simpl. split.
  - intros H; split; [apply H; now left | intros d Hd; apply H; now right].
  - intros [Hc Hw] d [<-|Hd]; [exact Hc | now apply Hw].
Qed.

(** The anchored tail accepts exactly a run of word characters and a final
    colon. *)
Lemma wordsColonEnd_iff (s : string) :
  wordsColonEnd s = true <->
  exists w, s = w ++ String colon EmptyString /\ allWordChars w.
Proof.
  split.
  - induction s as [|c s IH]; simpl; [discriminate|].
    destruct (isWordChar c) eqn:Hc.
    + intros H. destruct (IH H) as (w & -> & Hw).
      exists (String c w). split; [reflexivity|].
      apply allWordChars_cons. now split.
    + intros H. apply andb_true_iff in H as [H1 H2].
      apply Ascii.eqb_eq in H1. apply String.eqb_eq in H2. subst.
      exists EmptyString. split; [reflexivity | apply allWordChars_nil].
  - intros (w & -> & Hw).
    induction w as [|c w IH]; cbn [append wordsColonEnd].
    + rewrite colon_not_word. now rewrite Ascii.eqb_refl.
    + apply allWordChars_cons in Hw as [Hc Hw]. rewrite Hc. now apply IH.
Qed.

Lemma quoteWordsColonEnd_iff (s : string) :
  quoteWordsColonEnd s = true <->
  exists w, s = String dquote (w ++ String colon EmptyString)
            /\ w <> EmptyString /\ allWordChars w.
Proof.
  split.
  - destruct s as [|q [|c rest]]; simpl; try discriminate.
    intros H. apply andb_true_iff in H as [H Hrest].
    apply andb_true_iff in H as [Hq Hc].
    apply Ascii.eqb_eq in Hq. subst q.
    apply wordsColonEnd_iff in Hrest as (w & -> & Hw).
    exists (String c w). repeat split; [discriminate|].
    apply allWordChars_cons. now split.
  - intros (w & -> & Hne & Hw).
    destruct w as [|c w]; [congruence|]. cbn [append quoteWordsColonEnd].
    apply allWordChars_cons in Hw as [Hc Hw].
    rewrite Ascii.eqb_refl, Hc. cbn [andb].
    apply wordsColonEnd_iff. now exists w.
Qed.

(** The search of the source and the wording of the pattern agree. *)
Lemma testQuoteWordsColon_iff (s : string) :
  testQuoteWordsColon s = true <-> QuoteWordsColonAtEnd s.
Proof.
  unfold QuoteWordsColonAtEnd. split.
  - induction s as [|c s IH]; cbn [testQuoteWordsColon].
    + discriminate.
    + intros H. apply orb_true_iff in H as [H|H].
      * apply (quoteWordsColonEnd_iff (String c s)) in H as (w & E & Hne & Hw).
        exists EmptyString, w. now rewrite E.
      * destruct (IH H) as (pre & w & -> & Hne & Hw).
        exists (String c pre), w. now simpl.
  - intros (pre & w & -> & Hne & Hw).
    induction pre as [|c pre IH].
    + assert (H : quoteWordsColonEnd
                    (String dquote (w ++ String colon EmptyString)) = true)
        by (apply quoteWordsColonEnd_iff; now exists w).
      cbn [append]. cbn [testQuoteWordsColon]. now rewrite H.
    + cbn [append]. cbn [testQuoteWordsColon]. rewrite IH. apply orb_true_r.
Qed.

End JsFacts.

(** * Facts about the provider *)

(** Running an index computation. *)
Lemma result_ret {A : Type} (a : A) (index : DefoldIndex.t) :
  DefoldIndex.result (DefoldIndex.ret a) index = a.
Proof. reflexivity. Qed.

Lemma result_bind {A B : Type} (m : DefoldIndex.Query A)
      (k : A -> DefoldIndex.Query B) (index : DefoldIndex.t) :
  DefoldIndex.result (DefoldIndex.bind m k) index
  = DefoldIndex.result (k (DefoldIndex.result m index)) index.
Proof.
  unfold DefoldIndex.result, DefoldIndex.bind.
  destruct (m index) as [a made]; simpl.
  now destruct (k a index).
Qed.

Lemma lookups_bind {A B : Type} (m : DefoldIndex.Query A)
      (k : A -> DefoldIndex.Query B) (index : DefoldIndex.t) :
  DefoldIndex.lookups (DefoldIndex.bind m k) index
  = DefoldIndex.lookups m index
    ++ DefoldIndex.lookups (k (DefoldIndex.result m index)) index.
Proof.
  unfold DefoldIndex.lookups, DefoldIndex.result, DefoldIndex.bind.
  destruct (m index) as [a made]; simpl.
  now destruct (k a index).
Qed.

(** One step of the expansion, read through the fields of the instance. *)
Lemma instanceCompletionItem_unfold (instance : IDefoldInstance) :
  instanceCompletionItem instance
  = instanceItem instance
      :: flat_map instanceCompletionItem (Instance.instances instance)
      ++ map componentCompletionItem (Instance.components instance).
Proof. destruct instance; reflexivity. Qed.

Lemma gameObject_result (script : string) (index : DefoldIndex.t) :
  DefoldIndex.result (completionIfAttachedToGameObject script) index
  = map componentCompletionItem
      (DefoldIndex.gameObjectComponents index ("/" ++ script)%string).
Proof. reflexivity. Qed.

Lemma collection_result (script : string) (index : DefoldIndex.t) :
  DefoldIndex.result (completionIfAttachedToCollection script) index
  = flat_map instanceCompletionItem
      (DefoldIndex.collectionInstances index ("/" ++ script)%string).
Proof. reflexivity. Qed.

Lemma resolve_result (script : string) (index : DefoldIndex.t) :
  DefoldIndex.result (resolve script) index
  = map componentCompletionItem
      (DefoldIndex.gameObjectComponents index ("/" ++ script)%string)
    ++ flat_map instanceCompletionItem
         (DefoldIndex.collectionInstances index ("/" ++ script)%string).
Proof.
  unfold resolve. rewrite !result_bind, result_ret.
  now rewrite gameObject_result, collection_result.
Qed.

Lemma resolve_lookups (script : string) (index : DefoldIndex.t) :
  DefoldIndex.lookups (resolve script) index
  = [GameObjectComponents ("/" ++ script)%string;
     CollectionInstances ("/" ++ script)%string].
Proof. reflexivity. Qed.

(** ** The trigger test *)

Lemma showUrlCompletion_true_iff (document : TextDocument) (position : Position) :
  showUrlCompletion document position = true <->
  Js.EndsWith (path (uri document)) ".script"
  /\ (Js.EndsWith (linePrefixOf document position) Js.quote
      \/ Js.EndsWith (linePrefixOf document position) (String Js.dquote "#")
      \/ Js.QuoteWordsColonAtEnd (linePrefixOf document position)).
Proof.
  unfold showUrlCompletion, linePrefixOf, Js.quote.
  rewrite <- !JsFacts.endsWith_EndsWith, <- JsFacts.testQuoteWordsColon_iff.
  destruct (Js.endsWith (path (uri document)) ".script"); cbn [negb].
  - match goal with
    | |- (if ?b then true else false) = true <-> _ =>
        destruct b eqn:E
    end.
    + apply orb_true_iff in E as [E|E];
        [apply orb_true_iff in E as [E|E]|]; tauto.
    + apply orb_false_iff in E as [E E3].
      apply orb_false_iff in E as [E1 E2].
      rewrite E1, E2, E3. intuition discriminate.
  - intuition discriminate.
Qed.

(** C2: the trigger test answers true exactly when the path of the file ends
    in the script extension [.script] and the text in front of the caret ends
    with a double quote, or with a double quote and a hash, or with a double
    quote followed by one or more word characters and a colon; every other
    text, a closed quoted string among them, gives false. *)
Theorem C2_showUrlCompletion_trigger :
  (forall document position,
      showUrlCompletion document position = true <->
      Js.EndsWith (path (uri document)) ".script"
      /\ (Js.EndsWith (linePrefixOf document position) Js.quote
          \/ Js.EndsWith (linePrefixOf document position) (String Js.dquote "#")
          \/ Js.QuoteWordsColonAtEnd (linePrefixOf document position)))
  /\ Scenario.triggers "/main/player.script" Scenario.openQuote = true
  /\ Scenario.triggers "/main/player.script" Scenario.openFragment = true
  /\ Scenario.triggers "/main/player.script" Scenario.openScheme = true
  /\ Scenario.triggers "/main/player.script" Scenario.closedQuote = false
  /\ Scenario.triggers "/main/player.lua" Scenario.openQuote = false.
Proof.
  split; [exact showUrlCompletion_true_iff|].
  repeat split; vm_compute; reflexivity.
Qed.

(** A word between the quote and the hash keeps the popup closed: the test
    of line 33 wants the hash right after the quote. *)
Lemma showUrlCompletion_word_then_hash :
  Scenario.triggers "/main/player.script" Scenario.wordThenFragment = false.
Proof. vm_compute. reflexivity. Qed.

(** ** The formatter *)

(** C4: a suggestion shows the url of the entity as its label, a space and
    the type as its detail and the file name as its description; a component
    is filtered by its short id, so by its url only when the two coincide,
    and an instance is filtered by its url. *)
Theorem C4_formatter_fields :
  (forall component : IDefoldComponent,
      let item := componentCompletionItem component in
      label (itemLabel item) = Component.url component
      /\ detail (itemLabel item) = String " " (Component.type component)
      /\ description (itemLabel item) = Component.filename component
      /\ filterText item = Some (Component.id component)
      /\ (filterText item = Some (Component.url component)
          <-> Component.id component = Component.url component))
  /\ (forall instance : IDefoldInstance,
        let item := instanceItem instance in
        hd_error (instanceCompletionItem instance) = Some item
        /\ label (itemLabel item) = Instance.url instance
        /\ detail (itemLabel item) = String " " (Instance.type instance)
        /\ description (itemLabel item) = Instance.filename instance
        /\ filterText item = Some (Instance.url instance))
  /\ filterText (componentCompletionItem Scenario.playerSprite) = Some "sprite"%string
  /\ filterText (componentCompletionItem Scenario.playerSprite)
     <> Some (Component.url Scenario.playerSprite).
Proof.
  repeat split; try reflexivity.
  - cbn. congruence.
  - cbn. congruence.
  - now rewrite instanceCompletionItem_unfold.
  - discriminate.
Qed.

(** ** The recursive expansion *)

(** C9: expanding an instance gives one suggestion for the instance, plus
    the sizes of the expansions of its children, plus one per component it
    owns; the expansion is never empty and starts with the suggestion of the
    instance itself. *)
Theorem C9_expansion_size (instance : IDefoldInstance) :
  List.length (instanceCompletionItem instance)
  = 1 + list_sum (map (fun child => List.length (instanceCompletionItem child))
                      (Instance.instances instance))
      + List.length (Instance.components instance)
  /\ instanceCompletionItem instance <> []
  /\ hd_error (instanceCompletionItem instance) = Some (instanceItem instance).
Proof.
  rewrite instanceCompletionItem_unfold. repeat split; [|discriminate].
  cbn [List.length]. rewrite length_app, length_map.
  cbn [Nat.add]. f_equal. f_equal.
  induction (Instance.instances instance) as [|child rest IH];
    [reflexivity|].
  cbn [flat_map map list_sum fold_right]. rewrite length_app.
  f_equal. exact IH.
Qed.

(** C1 as the specification words it asks for four suggestions in the
    nested scenario; the provider returns five there. *)
Lemma C1_nested_scenario_has_five :
  DefoldIndex.gameObjectComponents Scenario.collectionIndex "/main/player.script" = []
  /\ DefoldIndex.collectionInstances Scenario.collectionIndex "/main/player.script"
     = [Scenario.player]
  /\ Instance.instances Scenario.player = [Scenario.gun]
  /\ List.length (Instance.components Scenario.player) = 2
  /\ Instance.instances Scenario.gun = []
  /\ List.length (Instance.components Scenario.gun) = 1
  /\ DefoldIndex.result (resolve "main/player.script") Scenario.collectionIndex
     = [instanceItem Scenario.player; instanceItem Scenario.gun;
        componentCompletionItem Scenario.gunSprite;
        componentCompletionItem Scenario.playerSprite;
        componentCompletionItem Scenario.playerScript]
  /\ List.length
       (DefoldIndex.result (resolve "main/player.script") Scenario.collectionIndex)
     <> 4.
Proof. repeat split. vm_compute. discriminate. Qed.

(** C1: the expansion of an instance is the suggestion of the instance, then
    the expansions of its child instances, then one suggestion per component
    it owns, in the order they are declared; for a collection holding one
    instance with two components and one nested instance with one component,
    the provider returns the outer instance, the nested instance, the nested
    component and the two outer components: five suggestions. *)
Theorem C1_expansion_order :
  (forall instance : IDefoldInstance,
      instanceCompletionItem instance
      = [instanceItem instance]
        ++ flat_map instanceCompletionItem (Instance.instances instance)
        ++ map componentCompletionItem (Instance.components instance))
  /\ (forall index script outer nested c1 c2 c3,
        DefoldIndex.gameObjectComponents index ("/" ++ script)%string = [] ->
        DefoldIndex.collectionInstances index ("/" ++ script)%string = [outer] ->
        Instance.instances outer = [nested] ->
        Instance.components outer = [c1; c2] ->
        Instance.instances nested = [] ->
        Instance.components nested = [c3] ->
        DefoldIndex.result (resolve script) index
        = [instanceItem outer; instanceItem nested;
           componentCompletionItem c3;
           componentCompletionItem c1; componentCompletionItem c2]
        /\ List.length (DefoldIndex.result (resolve script) index) = 5).
Proof.
  split.
  - intros instance. apply instanceCompletionItem_unfold.
  - intros index script outer nested c1 c2 c3 Hgo Hcol Hin Hcs Hnin Hncs.
    assert (E : DefoldIndex.result (resolve script) index
                = [instanceItem outer; instanceItem nested;
                   componentCompletionItem c3;
                   componentCompletionItem c1; componentCompletionItem c2]).
    { rewrite resolve_result, Hgo, Hcol. cbn [map flat_map app].
      rewrite (instanceCompletionItem_unfold outer), Hin, Hcs.
      cbn [map flat_map app].
      rewrite (instanceCompletionItem_unfold nested), Hnin, Hncs.
      reflexivity. }
    split; [exact E | now rewrite E].
Qed.

Lemma C1_expansion_order_witness :
  DefoldIndex.result (resolve "main/player.script") Scenario.collectionIndex
  = [instanceItem Scenario.player; instanceItem Scenario.gun;
     componentCompletionItem Scenario.gunSprite;
     componentCompletionItem Scenario.playerSprite;
     componentCompletionItem Scenario.playerScript]
  /\ List.length
       (DefoldIndex.result (resolve "main/player.script") Scenario.collectionIndex)
     = 5.
Proof.
  apply (proj2 C1_expansion_order Scenario.collectionIndex "main/player.script"
           Scenario.player Scenario.gun Scenario.playerSprite
           Scenario.playerScript Scenario.gunSprite); reflexivity.
Defined.

(** ** The resolver *)

(** C3: the resolver returns the suggestions of the components found for the
    game object, one per component and in the order found, followed by the
    flattened expansions of the instances found for the collection; when the
    script belongs to a game object only, that is one suggestion per attached
    component, each filtered by the id of its component. *)
Theorem C3_resolve_concatenates (index : DefoldIndex.t) (script : string) :
  DefoldIndex.result (resolve script) index
  = DefoldIndex.result (completionIfAttachedToGameObject script) index
    ++ DefoldIndex.result (completionIfAttachedToCollection script) index
  /\ DefoldIndex.result (completionIfAttachedToGameObject script) index
     = map componentCompletionItem
         (DefoldIndex.gameObjectComponents index ("/" ++ script)%string)
  /\ DefoldIndex.result (completionIfAttachedToCollection script) index
     = flat_map instanceCompletionItem
         (DefoldIndex.collectionInstances index ("/" ++ script)%string)
  /\ (DefoldIndex.collectionInstances index ("/" ++ script)%string = [] ->
      List.length (DefoldIndex.result (resolve script) index)
      = List.length (DefoldIndex.gameObjectComponents index ("/" ++ script)%string)
      /\ map filterText (DefoldIndex.result (resolve script) index)
         = map (fun component => Some (Component.id component))
             (DefoldIndex.gameObjectComponents index ("/" ++ script)%string)).
Proof.
  split; [|split; [|split]]; try reflexivity.
  intros Hcol. rewrite resolve_result, Hcol. cbn [flat_map].
  rewrite app_nil_r, length_map, map_map. split; reflexivity.
Qed.

Lemma C3_resolve_concatenates_witness :
  List.length
    (DefoldIndex.result (resolve "main/player.script") Scenario.gameObjectIndex) = 2
  /\ map filterText
       (DefoldIndex.result (resolve "main/player.script") Scenario.gameObjectIndex)
     = [Some "sprite"%string; Some "script"%string].
Proof.
  apply (proj2 (proj2 (proj2
           (C3_resolve_concatenates Scenario.gameObjectIndex "main/player.script")))).
  reflexivity.
Defined.

(** C5: the resolver puts the separator [/] in front of the relative path of
    the script before it asks the index, and both lookups, first the one for
    game objects and then the one for collections, receive that same path;
    the provider asks nothing when the trigger test fails. *)
Theorem C5_lookups_use_prefixed_path :
  forall (asRelativePath : Uri -> string) (index : DefoldIndex.t),
    (forall script,
        DefoldIndex.lookups (completionIfAttachedToGameObject script) index
        = [GameObjectComponents (String "/" script)]
        /\ DefoldIndex.lookups (completionIfAttachedToCollection script) index
           = [CollectionInstances (String "/" script)]
        /\ DefoldIndex.lookups (resolve script) index
           = [GameObjectComponents (String "/" script);
              CollectionInstances (String "/" script)])
    /\ (forall document position,
          DefoldIndex.lookups
            (provideCompletionItems asRelativePath document position) index
          = if showUrlCompletion document position
            then [GameObjectComponents (String "/" (asRelativePath (uri document)));
                  CollectionInstances (String "/" (asRelativePath (uri document)))]
            else []).
Proof.
  intros asRelativePath index. split.
  - intros script. repeat split.
  - intros document position. unfold provideCompletionItems.
    destruct (showUrlCompletion document position); cbn [negb]; [|reflexivity].
    rewrite lookups_bind, resolve_lookups.
    destruct (negb (List.length _ =? 0)); reflexivity.
Qed.

(** C6: when neither lookup finds anything for the script, the resolver
    returns the empty sequence and the provider hands the host the absent
    value, whatever the document and the caret. *)
Theorem C6_no_entries_no_suggestions :
  forall (asRelativePath : Uri -> string) (index : DefoldIndex.t) (script : string),
    DefoldIndex.gameObjectComponents index ("/" ++ script)%string = [] ->
    DefoldIndex.collectionInstances index ("/" ++ script)%string = [] ->
    DefoldIndex.result (resolve script) index = []
    /\ (forall document position,
          asRelativePath (uri document) = script ->
          DefoldIndex.result
            (provideCompletionItems asRelativePath document position) index
          = None).
Proof.
  intros asRelativePath index script Hgo Hcol.
  assert (E : DefoldIndex.result (resolve script) index = [])
    by (now rewrite resolve_result, Hgo, Hcol).
  split; [exact E|].
  intros document position Hscript. unfold provideCompletionItems.
  destruct (showUrlCompletion document position); cbn [negb]; [|reflexivity].
  rewrite result_bind, Hscript, E. reflexivity.
Qed.

Lemma C6_no_entries_no_suggestions_witness :
  DefoldIndex.result (resolve "main/player.script") Scenario.emptyIndex = []
  /\ DefoldIndex.result
       (provideCompletionItems Scenario.asRelativePath
          (Scenario.document "/main/player.script" Scenario.openQuote)
          (Scenario.caret (String.length Scenario.openQuote)))
       Scenario.emptyIndex
     = None.
Proof.
  destruct (C6_no_entries_no_suggestions Scenario.asRelativePath
              Scenario.emptyIndex "main/player.script" eq_refl eq_refl)
    as [Hresolve Hprovide].
  split; [exact Hresolve|].
  apply Hprovide. reflexivity.
Defined.

(** C8: two calls for the same script return the same sequence of
    suggestions, of the same length and with the same label, detail,
    description and filter text in every position, whenever the index
    answers the two lookups for the prefixed path of the script the same way
    at both calls, as an unchanged index does; nothing else in the index and
    nothing outside of it bears on the result.  The provider likewise gives
    the same answer to the same request. *)
Theorem C8_resolve_is_repeatable :
  forall (asRelativePath : Uri -> string) (index index' : DefoldIndex.t)
         (script : string),
    DefoldIndex.gameObjectComponents index (String "/" script)
    = DefoldIndex.gameObjectComponents index' (String "/" script) ->
    DefoldIndex.collectionInstances index (String "/" script)
    = DefoldIndex.collectionInstances index' (String "/" script) ->
    let first := DefoldIndex.result (resolve script) index in
    let second := DefoldIndex.result (resolve script) index' in
    first = second
    /\ List.length first = List.length second
    /\ (forall n a b,
          nth_error first n = Some a -> nth_error second n = Some b ->
          label (itemLabel a) = label (itemLabel b)
          /\ detail (itemLabel a) = detail (itemLabel b)
          /\ description (itemLabel a) = description (itemLabel b)
          /\ filterText a = filterText b)
    /\ (forall document position,
          asRelativePath (uri document) = script ->
          DefoldIndex.result
            (provideCompletionItems asRelativePath document position) index
          = DefoldIndex.result
              (provideCompletionItems asRelativePath document position) index').
Proof.
  intros asRelativePath index index' script Hgo Hcol first second.
  assert (Hsame : first = second).
  { subst first second. rewrite !resolve_result.
    change ("/" ++ script)%string with (String "/" script).
    now rewrite Hgo, Hcol. }
  split; [exact Hsame|]. split; [now rewrite Hsame|]. split.
  - intros n a b Ha Hb. rewrite Hsame in Ha.
    assert (a = b) by congruence. now subst.
  - intros document position Hscript. unfold provideCompletionItems.
    destruct (showUrlCompletion document position); cbn [negb]; [|reflexivity].
    rewrite !result_bind, Hscript. fold first second. rewrite Hsame.
    destruct (negb (List.length second =? 0)); reflexivity.
Qed.

Lemma C8_resolve_is_repeatable_witness :
  DefoldIndex.result (resolve "main/player.script") Scenario.collectionIndex
  = DefoldIndex.result (resolve "main/player.script") Scenario.collectionIndex'.
Proof.
  apply (C8_resolve_is_repeatable Scenario.asRelativePath
           Scenario.collectionIndex Scenario.collectionIndex'
           "main/player.script"); reflexivity.
Defined.

(** The hypotheses of C8 cannot be dropped: an index that answers the
    lookups for the script differently gives other suggestions. *)
Lemma resolve_follows_the_index :
  DefoldIndex.result (resolve "main/player.script") Scenario.collectionIndex
  <> DefoldIndex.result (resolve "main/player.script") Scenario.gameObjectIndex.
Proof. vm_compute. discriminate. Qed.

(** C10: the provider never hands the host an empty list: it answers with
    the absent value when the trigger test fails and when both sources are
    empty, and otherwise with the resolved suggestions, of which there is at
    least one. *)
Theorem C10_never_an_empty_list :
  forall (asRelativePath : Uri -> string) (index : DefoldIndex.t)
         (document : TextDocument) (position : Position),
    let answer :=
      DefoldIndex.result
        (provideCompletionItems asRelativePath document position) index in
    let items :=
      DefoldIndex.result (resolve (asRelativePath (uri document))) index in
    answer <> Some []
    /\ (showUrlCompletion document position = false -> answer = None)
    /\ (DefoldIndex.result
         (completionIfAttachedToGameObject (asRelativePath (uri document))) index = [] ->
       DefoldIndex.result
         (completionIfAttachedToCollection (asRelativePath (uri document))) index = [] ->
       answer = None)
    /\ (showUrlCompletion document position = true -> items <> [] ->
        answer = Some items).
Proof.
  intros asRelativePath index document position. cbv zeta.
  unfold provideCompletionItems.
  destruct (showUrlCompletion document position); cbn [negb].
  - rewrite result_bind.
    destruct (DefoldIndex.result (resolve (asRelativePath (uri document))) index)
      as [|item rest] eqn:E; cbn.
    + repeat split; congruence.
    + repeat split; try congruence.
      intros Hgo Hcol.
      assert (X : item :: rest = [] ++ []); [|discriminate].
      rewrite <- E. unfold resolve. rewrite !result_bind, result_ret.
      f_equal; [exact Hgo | exact Hcol].
  - cbn. repeat split; congruence.
Qed.

Lemma C10_never_an_empty_list_witness :
  DefoldIndex.result
    (provideCompletionItems Scenario.asRelativePath
       (Scenario.document "/main/player.lua" Scenario.openQuote)
       (Scenario.caret (String.length Scenario.openQuote)))
    Scenario.gameObjectIndex = None
  /\ DefoldIndex.result
       (provideCompletionItems Scenario.asRelativePath
          (Scenario.document "/main/player.script" Scenario.openQuote)
          (Scenario.caret (String.length Scenario.openQuote)))
       Scenario.emptyIndex = None
  /\ DefoldIndex.result
       (provideCompletionItems Scenario.asRelativePath
          (Scenario.document "/main/player.script" Scenario.openQuote)
          (Scenario.caret (String.length Scenario.openQuote)))
       Scenario.gameObjectIndex
     = Some [componentCompletionItem Scenario.playerSprite;
             componentCompletionItem Scenario.playerScript].
Proof.
  split; [|split].
  - destruct (C10_never_an_empty_list Scenario.asRelativePath
                Scenario.gameObjectIndex
                (Scenario.document "/main/player.lua" Scenario.openQuote)
                (Scenario.caret (String.length Scenario.openQuote)))
      as (_ & Hclosed & _ & _).
    apply Hclosed. reflexivity.
  - destruct (C10_never_an_empty_list Scenario.asRelativePath
                Scenario.emptyIndex
                (Scenario.document "/main/player.script" Scenario.openQuote)
                (Scenario.caret (String.length Scenario.openQuote)))
      as (_ & _ & Hempty & _).
    apply Hempty; reflexivity.
  - destruct (C10_never_an_empty_list Scenario.asRelativePath
                Scenario.gameObjectIndex
                (Scenario.document "/main/player.script" Scenario.openQuote)
                (Scenario.caret (String.length Scenario.openQuote)))
      as (_ & _ & _ & Hitems).
    apply Hitems; [reflexivity | discriminate].
Defined.

(** ** Termination of the expansion on an object graph *)

Module ObjectGraphFacts.

Lemma flatMap_Forall2 {A B C : Type} (f : A -> option (list C))
      (g : B -> list C) (rs : list A) (ts : list B) :
  Forall2 (fun r t => f r = Some (g t)) rs ts ->
  ObjectGraph.flatMap f rs = Some (flat_map g ts).
Proof.
  induction 1 as [|r t rs ts Hr _ IH]; cbn; [reflexivity|].
  now rewrite Hr, IH.
Qed.

Lemma flatMap_Some_inv {A B C : Type} (f : A -> option (list C))
      (g : B -> list C) (P : A -> B -> Prop) (rs : list A) :
  (forall r ys, In r rs -> f r = Some ys -> exists t, P r t /\ ys = g t) ->
  forall out, ObjectGraph.flatMap f rs = Some out ->
  exists ts, Forall2 P rs ts /\ out = flat_map g ts.
Proof.
  induction rs as [|r rs IH]; intros Hf out; cbn.
  - intros [= <-]. now exists [].
  - destruct (f r) as [ys|] eqn:Er; [|discriminate].
    destruct (ObjectGraph.flatMap f rs) as [zs|] eqn:Ers; [|discriminate].
    intros [= <-].
    destruct (Hf r ys (or_introl eq_refl) Er) as (t & Ht & ->).
    destruct (IH (fun r' ys' Hin => Hf r' ys' (or_intror Hin)) zs eq_refl)
      as (ts & Hts & ->).
    exists (t :: ts). split; [now constructor | reflexivity].
Qed.

Lemma height_child (child : IDefoldInstance) (insts : list IDefoldInstance)
      (n : nat) :
  list_max (map ObjectGraph.height insts) <= n ->
  In child insts -> ObjectGraph.height child <= n.
Proof.
  intros Hmax Hin. apply list_max_le in Hmax.
  rewrite Forall_forall in Hmax. apply Hmax. now apply in_map.
Qed.

(** With as many frames as the tree is deep, the walk over the heap
    returns the expansion of the tree. *)
Lemma enough_stack (heap : ObjectGraph.Heap) (stack : nat) :
  forall r t,
    ObjectGraph.Unfolds heap r t ->
    ObjectGraph.height t <= stack ->
    ObjectGraph.instanceCompletionItem heap stack r
    = Some (instanceCompletionItem t).
Proof.
  induction stack as [|stack IH]; intros r t Hu Hh.
  - destruct t; cbn in Hh; lia.
  - destruct Hu as [r u ty f insts comps -> -> -> -> Hkids].
    cbn [ObjectGraph.height] in Hh. apply le_S_n in Hh.
    cbn [ObjectGraph.instanceCompletionItem].
    assert (Hnested :
              ObjectGraph.flatMap (ObjectGraph.instanceCompletionItem heap stack)
                (ObjectGraph.instances (heap r))
              = Some (flat_map instanceCompletionItem insts)).
    { apply flatMap_Forall2.
      pose proof (fun child => height_child child insts stack Hh) as Hchild.
      clear Hh. induction Hkids as [|r' t' rs ts Hrt _ IHk]; constructor.
      - apply IH; [exact Hrt | apply Hchild; now left].
      - apply IHk. intros child Hin. apply Hchild. now right. }
    rewrite Hnested. reflexivity.
Qed.

(** Whenever the walk returns, the heap unfolds from the reference into a
    tree and the walk has returned the expansion of that tree. *)
Lemma returns_only_on_trees (heap : ObjectGraph.Heap) (stack : nat) :
  forall r items,
    ObjectGraph.instanceCompletionItem heap stack r = Some items ->
    exists t, ObjectGraph.Unfolds heap r t /\ items = instanceCompletionItem t.
Proof.
  induction stack as [|stack IH]; intros r items; cbn; [discriminate|].
  destruct (ObjectGraph.flatMap _ _) as [nested|] eqn:E; [|discriminate].
  intros [= <-].
  destruct (flatMap_Some_inv _ instanceCompletionItem (ObjectGraph.Unfolds heap)
              _ (fun r' ys _ => IH r' ys) nested E) as (ts & Hts & ->).
  exists (Instance.make (ObjectGraph.url (heap r)) (ObjectGraph.type (heap r))
            (ObjectGraph.filename (heap r)) ts
            (ObjectGraph.components (heap r))).
  split; [now constructor | reflexivity].
Qed.

Lemma selfNested_overflows (stack : nat) :
  ObjectGraph.instanceCompletionItem ObjectGraph.selfNested stack 0 = None.
Proof.
  induction stack as [|stack IH]; [reflexivity|].
  cbn [ObjectGraph.instanceCompletionItem ObjectGraph.selfNested
       ObjectGraph.instances ObjectGraph.flatMap].
  now rewrite IH.
Qed.

Lemma collectionHeap_unfolds :
  ObjectGraph.Unfolds Scenario.collectionHeap 0 Scenario.player.
Proof.
  constructor; try reflexivity.
  constructor; [|constructor].
  constructor; try reflexivity. constructor.
Qed.

End ObjectGraphFacts.

(** C7 as the specification words it promises that the walk stops on a cycle
    and returns what it has; on an instance nested in itself no depth of the
    call stack is enough for the walk to return anything. *)
Lemma C7_cycle_never_returns :
  ~ exists stack items,
      ObjectGraph.instanceCompletionItem ObjectGraph.selfNested stack 0
      = Some items.
Proof.
  intros (stack & items & H).
  rewrite ObjectGraphFacts.selfNested_overflows in H. discriminate.
Qed.

(** C7: on an index whose instances form a tree the expansion terminates:
    some depth of the call stack is enough, and with that depth or more the
    walk returns the full expansion of the tree. *)
Theorem C7_tree_expansion_terminates :
  forall (heap : ObjectGraph.Heap) (r : ObjectGraph.Ref) (t : IDefoldInstance),
    ObjectGraph.Unfolds heap r t ->
    exists stack,
      forall stack', stack <= stack' ->
        ObjectGraph.instanceCompletionItem heap stack' r
        = Some (instanceCompletionItem t).
Proof.
  intros heap r t Hu. exists (ObjectGraph.height t).
  intros stack' Hle. now apply ObjectGraphFacts.enough_stack.
Qed.

Lemma C7_tree_expansion_terminates_witness :
  exists stack,
    forall stack', stack <= stack' ->
      ObjectGraph.instanceCompletionItem Scenario.collectionHeap stack' 0
      = Some (instanceCompletionItem Scenario.player).
Proof.
  apply (C7_tree_expansion_terminates Scenario.collectionHeap 0 Scenario.player).
  apply ObjectGraphFacts.collectionHeap_unfolds.
Defined.

(** * Further facts about the provider *)

(** Induction over a tree of instances, with the property at hand for every
    child. *)
Lemma instance_induction (P : IDefoldInstance -> Prop) :
  (forall u ty f insts comps,
      Forall P insts -> P (Instance.make u ty f insts comps)) ->
  forall t, P t.
Proof.
  intros step. fix IH 1. intros [u ty f insts comps]. apply step.
  induction insts as [|child rest IHrest]; constructor;
    [apply IH | exact IHrest].
Qed.

Lemma length_flat_map {A B : Type} (f : A -> list B) (l : list A) :
  List.length (flat_map f l) = list_sum (map (fun x => List.length (f x)) l).
Proof.
  induction l as [|x l IH]; [reflexivity|].
  cbn [flat_map map list_sum fold_right]. now rewrite length_app, IH.
Qed.

Lemma list_sum_split {A : Type} (f g h : A -> nat) (l : list A) :
  Forall (fun x => f x = g x + h x) l ->
  list_sum (map f l) = list_sum (map g l) + list_sum (map h l).
Proof.
  induction 1 as [|x l Hx _ IH]; [reflexivity|].
  cbn [map list_sum fold_right]. unfold list_sum in IH. lia.
Qed.

Lemma expansion_counts (t : IDefoldInstance) :
  List.length (instanceCompletionItem t)
  = Tree.instanceCount t + Tree.componentCount t.
Proof.
  induction t as [u ty f insts comps IH] using instance_induction.
  cbn [instanceCompletionItem Tree.instanceCount Tree.componentCount List.length].
  rewrite length_app, length_map, length_flat_map.
  rewrite (list_sum_split _ Tree.instanceCount Tree.componentCount insts IH).
  lia.
Qed.

(** X1: the provider returns one suggestion per attached component and, for
    every instance found for the collection, one per instance and one per
    component anywhere in its tree. *)
Theorem resolve_counts_every_entity (index : DefoldIndex.t) (script : string) :
  List.length (DefoldIndex.result (resolve script) index)
  = List.length (DefoldIndex.gameObjectComponents index ("/" ++ script)%string)
    + list_sum
        (map (fun t => Tree.instanceCount t + Tree.componentCount t)
             (DefoldIndex.collectionInstances index ("/" ++ script)%string)).
Proof.
  rewrite resolve_result, length_app, length_map, length_flat_map.
  f_equal. f_equal. apply map_ext. exact expansion_counts.
Qed.

Lemma In_instanceCompletionItem (t : IDefoldInstance) (item : CompletionItem) :
  In item (instanceCompletionItem t) <->
  (exists d, Tree.Reaches t d /\ item = instanceItem d)
  \/ (exists d c, Tree.Reaches t d /\ In c (Instance.components d)
                  /\ item = componentCompletionItem c).
Proof.
  split.
  - revert item.
    induction t as [u ty f insts comps IH] using instance_induction.
    intros item Hin. rewrite instanceCompletionItem_unfold in Hin.
    cbn [Instance.instances Instance.components] in Hin.
    destruct Hin as [<-|Hin].
    + left. eexists. split; [apply Tree.reaches_self | reflexivity].
    + apply in_app_or in Hin as [Hin|Hin].
      * apply in_flat_map in Hin as (child & Hchild & Hin).
        rewrite Forall_forall in IH.
        destruct (IH child Hchild item Hin) as [(d & Hd & ->)|(d & c & Hd & Hc & ->)].
        -- left. exists d. split; [|reflexivity].
           eapply Tree.reaches_child; [exact Hchild | exact Hd].
        -- right. exists d, c. repeat split; [|exact Hc].
           eapply Tree.reaches_child; [exact Hchild | exact Hd].
      * apply in_map_iff in Hin as (c & <- & Hc).
        right. eexists _, c. repeat split; [apply Tree.reaches_self | exact Hc].
  - assert (Hreach : forall d, Tree.Reaches t d ->
              forall x, In x (instanceCompletionItem d) ->
                        In x (instanceCompletionItem t)).
    { induction 1 as [|t child d Hin _ IH]; [auto|].
      intros x Hx. rewrite (instanceCompletionItem_unfold t).
      right. apply in_or_app. left. apply in_flat_map.
      exists child. split; [exact Hin | now apply IH]. }
    intros [(d & Hd & ->)|(d & c & Hd & Hc & ->)]; apply (Hreach d Hd);
      rewrite instanceCompletionItem_unfold.
    + now left.
    + right. apply in_or_app. right. now apply in_map.
Qed.

(** X2: a suggestion is in the expansion of an instance exactly when it is
    the suggestion of an instance reached from it, or of a component owned
    by one: nothing reachable is left out and nothing else is offered. *)
Theorem expansion_membership (t : IDefoldInstance) (item : CompletionItem) :
  In item (instanceCompletionItem t) <->
  (exists d, Tree.Reaches t d /\ item = instanceItem d)
  \/ (exists d c, Tree.Reaches t d /\ In c (Instance.components d)
                  /\ item = componentCompletionItem c).
Proof. apply In_instanceCompletionItem. Qed.

(** X3: every suggestion the resolver returns is of kind [Text], has its
    filter text set, and shows a detail that begins with a space. *)
Theorem resolve_items_are_complete (index : DefoldIndex.t) (script : string) :
  Forall (fun item =>
            kind item = Text
            /\ filterText item <> None
            /\ exists ty, detail (itemLabel item) = String " " ty)
         (DefoldIndex.result (resolve script) index).
Proof.
  rewrite resolve_result. apply Forall_app. split; apply Forall_forall.
  - intros item Hin. apply in_map_iff in Hin as (c & <- & _).
    repeat split; [discriminate | eexists; reflexivity].
  - intros item Hin. apply in_flat_map in Hin as (t & _ & Hin).
    apply In_instanceCompletionItem in Hin as [(d & _ & ->)|(d & c & _ & _ & ->)];
      (repeat split; [discriminate | eexists; reflexivity]).
Qed.

(** ** More on the trigger test *)

Lemma string_app_assoc (a b c : string) :
  ((a ++ b) ++ c)%string = (a ++ (b ++ c))%string.
Proof. induction a as [|x a IH]; cbn; [reflexivity | now rewrite IH]. Qed.

Lemma substring0_app (n : nat) (a b : string) :
  n <= String.length a ->
  Js.substring0 n (a ++ b)%string = Js.substring0 n a.
Proof.
  unfold Js.substring0. revert n.
  induction a as [|c a IH]; intros n Hn; cbn in Hn.
  - assert (n = 0) by lia. subst. now destruct b.
  - destruct n as [|n]; [reflexivity|]. cbn. f_equal. apply IH. lia.
Qed.

(** X4: when the trigger test answers true the text in front of the caret
    is not empty and ends in a double quote, a hash or a colon, that is in
    one of the two registered trigger characters or in a hash; so a caret at
    the start of a line never opens the completion. *)
Theorem trigger_needs_quote_hash_or_colon
        (document : TextDocument) (position : Position) :
  showUrlCompletion document position = true ->
  (exists pre c,
      linePrefixOf document position = (pre ++ String c EmptyString)%string
      /\ (In c triggerCharacters \/ c = "#"%char))
  /\ character position <> 0.
Proof.
  intros H. apply showUrlCompletion_true_iff in H as [_ H].
  assert (Hlast : exists pre c,
             linePrefixOf document position = (pre ++ String c EmptyString)%string
             /\ (In c triggerCharacters \/ c = "#"%char)).
  { destruct H as [[pre E]|[[pre E]|(pre & w & E & _)]].
    - exists pre, Js.dquote. split; [exact E | left; now left].
    - exists (pre ++ Js.quote)%string, "#"%char. split; [|now right].
      rewrite E. unfold Js.quote. now rewrite string_app_assoc.
    - exists (pre ++ String Js.dquote w)%string, Js.colon.
      split; [|left; right; now left].
      rewrite E. rewrite string_app_assoc. reflexivity. }
  split; [exact Hlast|].
  intros Hzero. destruct Hlast as (pre & c & E & _).
  unfold linePrefixOf, Js.substring0 in E. rewrite Hzero in E.
  destruct (text (lineAt document position)); destruct pre; discriminate.
Qed.

Lemma trigger_needs_quote_hash_or_colon_witness :
  (exists pre c,
      linePrefixOf (Scenario.document "/main/player.script" Scenario.openScheme)
                   (Scenario.caret (String.length Scenario.openScheme))
      = (pre ++ String c EmptyString)%string
      /\ (In c triggerCharacters \/ c = "#"%char))
  /\ character (Scenario.caret (String.length Scenario.openScheme)) <> 0.
Proof.
  apply (trigger_needs_quote_hash_or_colon
           (Scenario.document "/main/player.script" Scenario.openScheme)
           (Scenario.caret (String.length Scenario.openScheme))).
  vm_compute. reflexivity.
Defined.

(** X5: the trigger test looks at the path of the file and at the text in
    front of the caret only: two documents with the same path whose lines
    agree up to the caret get the same answer, whatever follows the caret. *)
Theorem trigger_ignores_text_after_caret
        (d1 d2 : TextDocument) (position : Position) (common rest1 rest2 : string) :
  path (uri d1) = path (uri d2) ->
  text (lineAt d1 position) = (common ++ rest1)%string ->
  text (lineAt d2 position) = (common ++ rest2)%string ->
  character position <= String.length common ->
  showUrlCompletion d1 position = showUrlCompletion d2 position.
Proof.
  intros Hpath H1 H2 Hle. unfold showUrlCompletion, linePrefixOf.
  rewrite Hpath, H1, H2, !substring0_app by exact Hle. reflexivity.
Qed.

Lemma trigger_ignores_text_after_caret_witness :
  showUrlCompletion
    (Scenario.document "/main/player.script" Scenario.closedQuote)
    (Scenario.caret (String.length Scenario.openQuote))
  = showUrlCompletion
      (Scenario.document "/main/player.script" Scenario.openQuote)
      (Scenario.caret (String.length Scenario.openQuote)).
Proof.
  apply (trigger_ignores_text_after_caret
           (Scenario.document "/main/player.script" Scenario.closedQuote)
           (Scenario.document "/main/player.script" Scenario.openQuote)
           (Scenario.caret (String.length Scenario.openQuote))
           Scenario.openQuote
           ("go" ++ Js.quote ++ ")")%string EmptyString).
  - reflexivity.
  - reflexivity.
  - reflexivity.
  - apply Nat.le_refl.
Defined.

(** ** When the provider has nothing to offer *)

(** X6: the provider answers with the absent value exactly when the
    trigger test fails or the index knows no component and no instance for
    the script; an instance without components already yields an answer. *)
Theorem provider_absent_iff
        (asRelativePath : Uri -> string) (index : DefoldIndex.t)
        (document : TextDocument) (position : Position) :
  DefoldIndex.result
    (provideCompletionItems asRelativePath document position) index = None
  <->
  showUrlCompletion document position = false
  \/ (DefoldIndex.gameObjectComponents index
        ("/" ++ asRelativePath (uri document))%string = []
      /\ DefoldIndex.collectionInstances index
           ("/" ++ asRelativePath (uri document))%string = []).
Proof.
  unfold provideCompletionItems.
  destruct (showUrlCompletion document position); cbn [negb].
  - rewrite result_bind, resolve_result.
    destruct (DefoldIndex.gameObjectComponents index _) as [|c cs].
    + cbn [map app].
      destruct (DefoldIndex.collectionInstances index _) as [|t ts].
      * cbn. intuition.
      * cbn [flat_map]. rewrite (instanceCompletionItem_unfold t). cbn.
        intuition discriminate.
    + cbn. intuition discriminate.
  - cbn. intuition.
Qed.

(** ** The walk over an object graph and the depth of the stack *)

Lemma flatMap_transfer {A B : Type} (f g : A -> option (list B)) (l : list A) :
  (forall x ys, In x l -> f x = Some ys -> g x = Some ys) ->
  forall out, ObjectGraph.flatMap f l = Some out ->
              ObjectGraph.flatMap g l = Some out.
Proof.
  induction l as [|x l IH]; intros Hfg out; cbn; [auto|].
  destruct (f x) as [ys|] eqn:Ex; [|discriminate].
  destruct (ObjectGraph.flatMap f l) as [zs|] eqn:El; [|discriminate].
  intros [= <-].
  rewrite (Hfg x ys (or_introl eq_refl) Ex).
  now rewrite (IH (fun x' ys' Hin => Hfg x' ys' (or_intror Hin)) zs eq_refl).
Qed.

Lemma deeper_stack_same_answer (heap : ObjectGraph.Heap) (n m : nat) :
  n <= m ->
  forall r items,
    ObjectGraph.instanceCompletionItem heap n r = Some items ->
    ObjectGraph.instanceCompletionItem heap m r = Some items.
Proof.
  revert m. induction n as [|n IH]; intros m Hle r items; [discriminate|].
  destruct m as [|m]; [lia|].
  cbn [ObjectGraph.instanceCompletionItem].
  destruct (ObjectGraph.flatMap (ObjectGraph.instanceCompletionItem heap n) _)
    as [nested|] eqn:E; [|discriminate].
  intros [= <-].
  rewrite (flatMap_transfer _ (ObjectGraph.instanceCompletionItem heap m) _
             (fun x ys _ => IH m ltac:(lia) x ys) nested E).
  reflexivity.
Qed.

(** X7: on an object graph the expansion returns, for some depth of the
    call stack, exactly when the graph unfolds from the instance into a
    tree; what it returns does not depend on how deep the stack is. *)
Theorem walk_returns_iff_tree (heap : ObjectGraph.Heap) (r : ObjectGraph.Ref) :
  ((exists stack items,
       ObjectGraph.instanceCompletionItem heap stack r = Some items)
   <-> exists t, ObjectGraph.Unfolds heap r t)
  /\ (forall n m a b,
         ObjectGraph.instanceCompletionItem heap n r = Some a ->
         ObjectGraph.instanceCompletionItem heap m r = Some b ->
         a = b).
Proof.
  split; [split|].
  - intros (stack & items & H).
    destruct (ObjectGraphFacts.returns_only_on_trees heap stack r items H)
      as (t & Ht & _).
    now exists t.
  - intros (t & Ht). exists (ObjectGraph.height t). eexists.
    apply ObjectGraphFacts.enough_stack; [exact Ht | apply Nat.le_refl].
  - intros n m a b Ha Hb.
    pose proof (deeper_stack_same_answer heap n (Nat.max n m)
                  (Nat.le_max_l n m) r a Ha) as Ha'.
    pose proof (deeper_stack_same_answer heap m (Nat.max n m)
                  (Nat.le_max_r n m) r b Hb) as Hb'.
    congruence.
Qed.

Lemma walk_returns_iff_tree_witness :
  ObjectGraph.instanceCompletionItem Scenario.collectionHeap 2 0
  = ObjectGraph.instanceCompletionItem Scenario.collectionHeap 7 0.
Proof.
  destruct (ObjectGraph.instanceCompletionItem Scenario.collectionHeap 2 0)
    as [a|] eqn:Ha; [|discriminate].
  destruct (ObjectGraph.instanceCompletionItem Scenario.collectionHeap 7 0)
    as [b|] eqn:Hb; [|discriminate].
  f_equal.
  exact (proj2 (walk_returns_iff_tree Scenario.collectionHeap 0) 2 7 a b Ha Hb).
Defined.

(** * Facts about the command that unpacks the archived assets *)

Module JsTextFacts.
Import JsText.
Local Open Scope string_scope.

Lemma toLowerCase_empty (s : string) :
  toLowerCase s = EmptyString <-> s = EmptyString.
Proof. destruct s; cbn; split; (reflexivity || discriminate). Qed.

Lemma truthy_iff (s : string) : truthy s = true <-> s <> EmptyString.
Proof.
  unfold truthy. destruct (String.eqb_spec s EmptyString) as [->|Hne]; cbn.
  - split; [discriminate | congruence].
  - split; [intros _; exact Hne | reflexivity].
Qed.

Lemma includes_In (l : list string) (x : string) :
  includes l x = true <-> In x l.
Proof.
  unfold includes. rewrite existsb_exists. split.
  - intros (y & Hy & E). apply String.eqb_eq in E. now subst.
  - intros Hx. exists x. split; [exact Hx | apply String.eqb_refl].
Qed.

Lemma findIndexFrom_found {A : Type} (p : A -> bool) (l : list A) (i : Z) :
  (0 <= i)%Z ->
  (findIndexFrom p l i =? -1)%Z = negb (existsb p l).
Proof.
  revert i. induction l as [|x l IH]; intros i Hi; cbn; [reflexivity|].
  destruct (p x); cbn.
  - apply Z.eqb_neq. lia.
  - apply IH. lia.
Qed.

Lemma prefix_app (pat post : string) : prefix pat (pat ++ post) = true.
Proof.
  induction pat as [|c pat IH]; cbn; [now destruct post|].
  destruct (ascii_dec c c); [exact IH | congruence].
Qed.

Lemma prefix_drop (pat s : string) :
  prefix pat s = true -> s = pat ++ drop (String.length pat) s.
Proof.
  revert s. induction pat as [|c pat IH]; intros s H; [reflexivity|].
  destruct s as [|d s]; cbn in H; [discriminate|].
  destruct (ascii_dec c d) as [->|]; [|discriminate].
  cbn. f_equal. now apply IH.
Qed.

(** [replace] rewrites the leftmost occurrence and nothing else. *)
Lemma replace_leftmost (pat rep s : string) :
  (~ Contains s pat /\ replace pat rep s = s)
  \/ (exists pre post,
         s = pre ++ pat ++ post
         /\ replace pat rep s = pre ++ rep ++ post
         /\ forall pre' post',
             s = pre' ++ pat ++ post' -> String.length pre <= String.length pre').
Proof.
  induction s as [|c s IH].
  - cbn [replace]. destruct (prefix pat EmptyString) eqn:E.
    + right. exists EmptyString, (drop (String.length pat) EmptyString).
      repeat split; [now apply prefix_drop | intros; apply Nat.le_0_l].
    + left. split; [|reflexivity].
      intros (pre & post & H). destruct pre; [|discriminate].
      cbn in H. rewrite H, prefix_app in E. discriminate.
  - cbn [replace]. destruct (prefix pat (String c s)) eqn:E.
    + right. exists EmptyString, (drop (String.length pat) (String c s)).
      repeat split; [now apply prefix_drop | intros; apply Nat.le_0_l].
    + destruct IH as [[Hno Hsame]|(pre & post & Hs & Hr & Hmin)].
      * left. split; [|now rewrite Hsame].
        intros (pre & post & H). destruct pre as [|d pre].
        -- cbn in H. rewrite H, prefix_app in E. discriminate.
        -- injection H as _ H. apply Hno. now exists pre, post.
      * right. exists (String c pre), post. repeat split.
        -- cbn. now rewrite <- Hs.
        -- cbn. now rewrite Hr.
        -- intros pre' post' H. destruct pre' as [|d pre'].
           ++ cbn in H. rewrite H, prefix_app in E. discriminate.
           ++ injection H as _ H. cbn. apply le_n_S. eapply Hmin. exact H.
Qed.

End JsTextFacts.

(** Dropping entries of a folder cannot make a name appear twice. *)
Lemma kept_names_stay_distinct (keep : DirEntry -> bool) (entries : list DirEntry) :
  NoDup (map fst entries) -> NoDup (map fst (filter keep entries)).
Proof.
  induction entries as [|entry entries IH]; intros Hdistinct; [constructor|].
  apply NoDup_cons_iff in Hdistinct as [Hfresh Hdistinct].
  specialize (IH Hdistinct).
  cbn [filter]. destruct (keep entry); [|exact IH].
  cbn [map]. apply NoDup_cons_iff. split; [|exact IH].
  intros Hin. apply Hfresh.
  apply in_map_iff in Hin as (e & Hname & He).
  apply filter_In in He as [He _].
  rewrite <- Hname. now apply in_map.
Qed.

(** X8: the archives the command works on are the entries of the folder
    whose type is exactly [File] and whose name ends in [.zip], so folders
    and linked files are left out; no name is listed twice unless the folder
    lists it twice, and a folder that cannot be read counts as empty. *)
Theorem archived_filenames_are_zip_files (listing : option (list DirEntry)) :
  (forall name type,
      In (name, type) (readArchivedAssetFilenames listing) <->
      exists entries,
        listing = Some entries /\ In (name, type) entries
        /\ type = FileType.File /\ Js.EndsWith name ".zip")
  /\ (forall entries,
         listing = Some entries -> NoDup (map fst entries) ->
         NoDup (map fst (readArchivedAssetFilenames listing)))
  /\ (listing = None -> readArchivedAssetFilenames listing = []).
Proof.
  repeat split.
  - destruct listing as [entries|]; cbn [readArchivedAssetFilenames];
      [|intros []].
    intros Hin. apply filter_In in Hin as [Hin Hp]. cbn in Hp.
    apply andb_true_iff in Hp as [Ht Hz].
    exists entries. repeat split; [exact Hin | now apply Nat.eqb_eq |].
    now apply JsFacts.endsWith_EndsWith.
  - intros (entries & -> & Hin & -> & Hz). cbn [readArchivedAssetFilenames].
    apply filter_In. split; [exact Hin|]. cbn.
    now apply JsFacts.endsWith_EndsWith.
  - intros entries -> Hnodup. now apply kept_names_stay_distinct.
  - now intros ->.
Qed.

Lemma archived_filenames_are_zip_files_witness :
  NoDup (map fst (readArchivedAssetFilenames (Some ArchiveScenario.listing))).
Proof.
  apply (proj1 (proj2 (archived_filenames_are_zip_files
                         (Some ArchiveScenario.listing)))
           ArchiveScenario.listing eq_refl).
  repeat constructor; cbn; intuition discriminate.
Defined.

(** ** The check that spares a second unpacking *)

Lemma upToDate_iff (state : IState) (filenames : list DirEntry) :
  assetAnnotationsAreUpToDate state filenames = true <->
  List.length (assets state) = List.length filenames
  /\ incl (map fst filenames) (map Asset.sourceArchiveFilename (assets state)).
Proof.
  unfold assetAnnotationsAreUpToDate.
  destruct (Nat.eqb_spec (List.length (assets state)) (List.length filenames))
    as [Hlen|Hlen]; cbn [negb].
  - rewrite negb_true_iff. split.
    + intros H. split; [exact Hlen|].
      intros name Hin. apply in_map_iff in Hin as (filename & <- & Hin).
      apply JsTextFacts.includes_In.
      destruct (JsText.includes _ (fst filename)) eqn:E; [reflexivity|].
      assert (X : existsb
                    (fun f => negb (JsText.includes
                                      (map Asset.sourceArchiveFilename (assets state))
                                      (fst f))) filenames = true)
        by (apply existsb_exists; exists filename; now rewrite E).
      congruence.
    + intros [_ Hincl]. apply not_true_is_false. intros E.
      apply existsb_exists in E as (filename & Hin & Hneg).
      apply negb_true_iff in Hneg.
      assert (X : JsText.includes
                    (map Asset.sourceArchiveFilename (assets state))
                    (fst filename) = true)
        by (apply JsTextFacts.includes_In, Hincl; now apply in_map).
      congruence.
  - split; [discriminate | intros [H _]; contradiction].
Qed.

(** X9: when the archives in the folder have distinct names, the state
    counts as up to date exactly when the archive names it records are the
    names in the folder, up to their order; names and versions of the assets
    play no part. *)
Theorem upToDate_iff_same_archives (state : IState) (filenames : list DirEntry) :
  NoDup (map fst filenames) ->
  (assetAnnotationsAreUpToDate state filenames = true <->
   Permutation (map fst filenames)
               (map Asset.sourceArchiveFilename (assets state))).
Proof.
  intros Hnodup. rewrite upToDate_iff. split.
  - intros [Hlen Hincl]. apply NoDup_Permutation_bis; [exact Hnodup | | exact Hincl].
    rewrite !length_map. apply Nat.eq_le_incl. exact Hlen.
  - intros Hperm. split.
    + apply Permutation_length in Hperm. rewrite !length_map in Hperm.
      symmetry. exact Hperm.
    + intros x Hx. eapply Permutation_in; eassumption.
Qed.

Lemma upToDate_iff_same_archives_witness :
  assetAnnotationsAreUpToDate
    {| assets := [Asset.make None None "teal.zip"%string;
                  Asset.make (Some "Druid"%string) (Some "0.1"%string)
                             "druid.zip"%string] |}
    (readArchivedAssetFilenames (Some ArchiveScenario.listing)) = true
  <-> Permutation
        (map fst (readArchivedAssetFilenames (Some ArchiveScenario.listing)))
        ["teal.zip"%string; "druid.zip"%string].
Proof.
  apply (upToDate_iff_same_archives
           {| assets := [Asset.make None None "teal.zip"%string;
                         Asset.make (Some "Druid"%string) (Some "0.1"%string)
                                    "druid.zip"%string] |}
           (readArchivedAssetFilenames (Some ArchiveScenario.listing))).
  repeat constructor; cbn; intuition discriminate.
Defined.

(** ** Which assets are skipped *)

Lemma skip_test (assetName : string) :
  negb (JsText.findIndex (fun name => JsText.startsWith assetName name)
          skipAssets =? -1)%Z
  = JsText.startsWith assetName "extension-teal".
Proof.
  unfold JsText.findIndex. rewrite JsTextFacts.findIndexFrom_found by lia.
  rewrite negb_involutive. cbn [skipAssets existsb]. apply orb_false_r.
Qed.

Lemma shouldSkipAsset_raises_iff (archivedAsset : IArchiveAsset) :
  shouldSkipAsset archivedAsset = None <->
  (ArchiveAsset.rootDirectory archivedAsset = None
   \/ ArchiveAsset.rootDirectory archivedAsset = Some EmptyString)
  /\ ArchiveAsset.name archivedAsset = None.
Proof.
  unfold shouldSkipAsset.
  destruct (ArchiveAsset.rootDirectory archivedAsset) as [root|];
    destruct (ArchiveAsset.name archivedAsset) as [name|]; cbn [option_map].
  - destruct (JsText.truthy (JsText.toLowerCase root)); split;
      try discriminate; intros [_ H]; discriminate.
  - destruct (JsText.truthy (JsText.toLowerCase root)) eqn:E.
    + split; [discriminate|]. intros [[H|H] _]; [discriminate|].
      injection H as ->. discriminate.
    + split; [|reflexivity]. intros _. split; [|reflexivity]. right.
      destruct (JsTextFacts.truthy_iff (JsText.toLowerCase root)) as [_ Hne].
      destruct root; [reflexivity|]. rewrite Hne in E; discriminate.
  - split; [discriminate | intros [_ H]; discriminate].
  - split; [|reflexivity]. intros _. split; [now left | reflexivity].
Qed.

Lemma failed_read_raises
      (path : string) (read : option ArchiveRead) :
  shouldSkipAsset (readAssetInfoFromArchive path read) = None <-> read = None.
Proof.
  rewrite shouldSkipAsset_raises_iff.
  destruct read as [r|]; cbn.
  - split; [intros [_ H]; discriminate | discriminate].
  - split; [reflexivity | intros _; split; [now left | reflexivity]].
Qed.

(** X10: the test for skipped assets raises exactly when the asset has no
    name and no root directory other than the empty one; an asset read from
    an archive raises it exactly when the read of the archive failed. *)
Theorem shouldSkipAsset_raises_on_failed_read :
  (forall archivedAsset : IArchiveAsset,
      shouldSkipAsset archivedAsset = None <->
      (ArchiveAsset.rootDirectory archivedAsset = None
       \/ ArchiveAsset.rootDirectory archivedAsset = Some EmptyString)
      /\ ArchiveAsset.name archivedAsset = None)
  /\ (forall path read,
         shouldSkipAsset (readAssetInfoFromArchive path read) = None
         <-> read = None).
Proof.
  split; [exact shouldSkipAsset_raises_iff|].
  exact failed_read_raises.
Qed.

(** X11: an asset with a root directory that is not empty is judged by that
    directory and never by its name, any other asset by its name; the asset
    is skipped when the deciding text, put in small letters, begins with
    [extension-teal]. *)
Theorem shouldSkipAsset_decided_by (archivedAsset : IArchiveAsset) (key : string) :
  (ArchiveAsset.rootDirectory archivedAsset = Some key /\ key <> EmptyString)
  \/ ((ArchiveAsset.rootDirectory archivedAsset = None
       \/ ArchiveAsset.rootDirectory archivedAsset = Some EmptyString)
      /\ ArchiveAsset.name archivedAsset = Some key) ->
  forall skip,
    shouldSkipAsset archivedAsset = Some skip <->
    skip = JsText.startsWith (JsText.toLowerCase key) "extension-teal".
Proof.
  intros Hkey skip. unfold shouldSkipAsset.
  destruct Hkey as [[-> Hne]|[[->| ->] ->]]; cbn [option_map].
  - assert (E : JsText.truthy (JsText.toLowerCase key) = true).
    { apply JsTextFacts.truthy_iff. now rewrite JsTextFacts.toLowerCase_empty. }
    rewrite E, skip_test. split; [now intros [= <-] | now intros ->].
  - rewrite skip_test. split; [now intros [= <-] | now intros ->].
  - cbn [JsText.toLowerCase JsText.truthy String.eqb negb].
    rewrite skip_test. split; [now intros [= <-] | now intros ->].
Qed.

Lemma shouldSkipAsset_decided_by_witness :
  shouldSkipAsset
    (readAssetInfoFromArchive "/project/.internal/lib/teal.zip"
       (Some ArchiveScenario.teal)) = Some true
  <-> true = JsText.startsWith (JsText.toLowerCase "Extension-Teal-main")
               "extension-teal".
Proof.
  apply (shouldSkipAsset_decided_by
           (readAssetInfoFromArchive "/project/.internal/lib/teal.zip"
              (Some ArchiveScenario.teal))
           "Extension-Teal-main").
  left. split; [reflexivity | discriminate].
Defined.

(** ** A run of the command *)

Section UnzipDependenciesFacts.

Variable fsPath : string -> string.
Variable archives : string -> option ArchiveRead.

(** What an asset read from an archive that names no druid target, or no
    druid at all, makes of the edit. *)
Lemma enhance_raises_iff (path : string) (r : ArchiveRead) :
  maybeEnhanceUnzippedAsset (readAssetInfoFromArchive path (Some r)) = None <->
  JsText.toLowerCase (title r) = "druid"%string /\ libraryIncludeDirs r = [].
Proof.
  unfold maybeEnhanceUnzippedAsset. cbn [readAssetInfoFromArchive
    ArchiveAsset.name ArchiveAsset.includeDirectories].
  destruct (JsText.truthy (title r)) eqn:Etitle; cbn [negb].
  - destruct (String.eqb_spec (JsText.toLowerCase (title r)) "druid") as [Hd|Hd].
    + destruct (libraryIncludeDirs r) as [|dir dirs].
      * split; [now intros _ | reflexivity].
      * split; [discriminate | intros [_ H]; discriminate].
    + split; [discriminate | intros [H _]; contradiction].
  - split; [discriminate|]. intros [Hd _]. exfalso.
    unfold JsText.truthy in Etitle. apply negb_false_iff in Etitle.
    apply String.eqb_eq in Etitle. rewrite Etitle in Hd. discriminate.
Qed.

Lemma raisedOn_cases (filename : DirEntry) :
  (raisedOn fsPath archives filename = None
   /\ ~ Unreadable fsPath archives filename
   /\ ~ DruidWithoutIncludeDirs fsPath archives filename)
  \/ (raisedOn fsPath archives filename = Some (SkipTestRaised filename)
      /\ Unreadable fsPath archives filename)
  \/ (raisedOn fsPath archives filename = Some (EnhanceRaised filename)
      /\ DruidWithoutIncludeDirs fsPath archives filename).
Proof.
  unfold raisedOn, readAssetArchiveMetadata, Unreadable, DruidWithoutIncludeDirs.
  destruct (archives (fsPath (fst filename))) as [r|] eqn:Eread.
  - destruct (shouldSkipAsset
                (readAssetInfoFromArchive (fsPath (fst filename)) (Some r)))
      as [[|]|] eqn:Eskip.
    + left. repeat split; [discriminate|].
      intros (r' & [= <-] & Hskip & _). congruence.
    + destruct (maybeEnhanceUnzippedAsset
                  (readAssetInfoFromArchive (fsPath (fst filename)) (Some r)))
        as [edit|] eqn:Eedit.
      * left. repeat split; [discriminate|].
        intros (r' & [= <-] & _ & Hd & Hdirs).
        assert (X : maybeEnhanceUnzippedAsset
                      (readAssetInfoFromArchive (fsPath (fst filename)) (Some r))
                    = None) by (apply enhance_raises_iff; now split).
        congruence.
      * right. right. split; [reflexivity|].
        apply enhance_raises_iff in Eedit as [Hd Hdirs].
        exists r. now repeat split.
    + apply failed_read_raises in Eskip. discriminate.
  - right. left. split; reflexivity.
Qed.

(** The loop ends at the first archive on which its body raises, and
    completes when there is none. *)
Lemma extractEach_ends (filenames : list DirEntry) :
  forall gathered steps,
    (exists gathered' steps',
        extractEach fsPath archives filenames gathered steps
        = Completed gathered' steps'
        /\ Forall (fun filename => raisedOn fsPath archives filename = None)
                  filenames)
    \/ (exists before filename after cause,
           filenames = before ++ filename :: after
           /\ Forall (fun earlier => raisedOn fsPath archives earlier = None) before
           /\ raisedOn fsPath archives filename = Some cause
           /\ extractEach fsPath archives filenames gathered steps
              = Interrupted cause).
Proof.
  induction filenames as [|filename rest IH]; intros gathered steps.
  - left. now exists gathered, steps.
  - cbn [extractEach].
    destruct (raisedOn fsPath archives filename) as [cause|] eqn:Eraised.
    + right. exists [], filename, rest, cause.
      repeat split; [constructor | exact Eraised |].
      unfold raisedOn in Eraised.
      destruct (shouldSkipAsset _) as [[|]|]; [discriminate| |congruence].
      destruct (maybeEnhanceUnzippedAsset _); [discriminate | congruence].
    + assert (Hnext : exists gathered1 steps1,
                 match shouldSkipAsset
                         (readAssetArchiveMetadata fsPath archives filename) with
                 | None => Interrupted (SkipTestRaised filename)
                 | Some true =>
                     extractEach fsPath archives rest
                       (gathered ++ [toAssetInfo
                          (readAssetArchiveMetadata fsPath archives filename) filename])
                       (steps ++ [Skipping
                          (readAssetArchiveMetadata fsPath archives filename)])
                 | Some false =>
                     match maybeEnhanceUnzippedAsset
                             (readAssetArchiveMetadata fsPath archives filename) with
                     | None => Interrupted (EnhanceRaised filename)
                     | Some _ =>
                         extractEach fsPath archives rest
                           (gathered ++ [toAssetInfo
                              (readAssetArchiveMetadata fsPath archives filename)
                              filename])
                           (steps ++ [Extracting
                              (readAssetArchiveMetadata fsPath archives filename)])
                     end
                 end
                 = extractEach fsPath archives rest gathered1 steps1).
      { unfold raisedOn in Eraised.
        destruct (shouldSkipAsset _) as [[|]|]; [| |discriminate].
        - eexists _, _. reflexivity.
        - destruct (maybeEnhanceUnzippedAsset _); [|discriminate].
          eexists _, _. reflexivity. }
      destruct Hnext as (gathered1 & steps1 & ->).
      destruct (IH gathered1 steps1)
        as [(g' & s' & Hdone & Hall)
           |(before & f & after & cause & -> & Hbefore & Hf & Hstop)].
      * left. exists g', s'. split; [exact Hdone | now constructor].
      * right. exists (filename :: before), f, after, cause.
        repeat split; [now constructor | exact Hf | exact Hstop].
Qed.

Lemma extractEach_completes (filenames : list DirEntry) :
  forall gathered steps gathered' steps',
    extractEach fsPath archives filenames gathered steps
    = Completed gathered' steps' ->
    gathered' = gathered
                ++ map (fun filename =>
                          toAssetInfo
                            (readAssetArchiveMetadata fsPath archives filename)
                            filename)
                       filenames
    /\ exists new, steps' = steps ++ new
                   /\ List.length new = List.length filenames
                   /\ Forall stepAgrees new.
Proof.
  induction filenames as [|filename rest IH]; intros gathered steps gathered' steps'.
  - cbn. intros [= <- <-]. rewrite app_nil_r. split; [reflexivity|].
    exists []. rewrite app_nil_r. now repeat split.
  - cbn [extractEach].
    destruct (shouldSkipAsset (readAssetArchiveMetadata fsPath archives filename))
      as [[|]|] eqn:E; [| |discriminate].
    + intros H. apply IH in H as (-> & new & -> & Hlen & Hall).
      split; [cbn [map]; now rewrite <- app_assoc|].
      eexists (_ :: new). rewrite <- app_assoc.
      split; [reflexivity|]. split; [cbn; now rewrite Hlen|].
      constructor; assumption.
    + destruct (maybeEnhanceUnzippedAsset _); [|discriminate].
      intros H. apply IH in H as (-> & new & -> & Hlen & Hall).
      split; [cbn [map]; now rewrite <- app_assoc|].
      eexists (_ :: new). rewrite <- app_assoc.
      split; [reflexivity|]. split; [cbn; now rewrite Hlen|].
      constructor; assumption.
Qed.

Lemma recorded_names_upToDate (state : IState) (filenames : list DirEntry) :
  map Asset.sourceArchiveFilename (assets state) = map fst filenames ->
  assetAnnotationsAreUpToDate state filenames = true.
Proof.
  intros H. apply upToDate_iff. split.
  - apply (f_equal (@List.length string)) in H.
    now rewrite !length_map in H.
  - rewrite H. apply incl_refl.
Qed.

(** X12: a run that saves a state records every archive it worked on, the
    skipped ones too, by name and in the order of the folder; it unpacks no
    asset the test judges skipped; and the next run over the same folder
    finds the state up to date and does nothing. *)
Theorem saved_state_is_up_to_date
        (loaded : option IState) (listing : option (list DirEntry))
        (state' : IState) (steps : list Step) :
  unzipDependencies fsPath archives loaded listing = Saved state' steps ->
  map Asset.sourceArchiveFilename (assets state')
  = map fst (readArchivedAssetFilenames listing)
  /\ List.length steps = List.length (readArchivedAssetFilenames listing)
  /\ Forall stepAgrees steps
  /\ unzipDependencies fsPath archives (Some state') listing = AlreadyUpToDate.
Proof.
  unfold unzipDependencies at 1.
  destruct loaded as [state|]; [|discriminate].
  destruct (assetAnnotationsAreUpToDate state _); [discriminate|].
  destruct (extractEach fsPath archives _ [] []) as [gathered steps0|cause] eqn:E;
    [|discriminate].
  intros [= <- <-].
  apply extractEach_completes in E as (-> & new & -> & Hlen & Hall).
  cbn [app assets].
  assert (Hnames : map Asset.sourceArchiveFilename
                     (map (fun filename =>
                             toAssetInfo
                               (readAssetArchiveMetadata fsPath archives filename)
                               filename)
                          (readArchivedAssetFilenames listing))
                   = map fst (readArchivedAssetFilenames listing))
    by (rewrite map_map; reflexivity).
  repeat split; [exact Hnames | exact Hlen | exact Hall |].
  unfold unzipDependencies.
  match goal with
  | |- (if assetAnnotationsAreUpToDate ?st ?fs then _ else _) = _ =>
      assert (U : assetAnnotationsAreUpToDate st fs = true)
        by (apply recorded_names_upToDate; exact Hnames);
      now rewrite U
  end.
Qed.

(** X13: a run on a state that is not up to date is cut short, and saves
    nothing, exactly when the folder lists an archive that cannot be read or
    an unpacked druid asset without include directory; the exception is the
    one of the first such archive, raised by the test for skipped assets on
    an unreadable archive and by the edit of the druid module otherwise.
    With no such archive the run reaches the save. *)
Theorem stale_run_raises_at_first_bad_archive
        (state : IState) (listing : option (list DirEntry)) :
  assetAnnotationsAreUpToDate state (readArchivedAssetFilenames listing) = false ->
  (forall cause,
      unzipDependencies fsPath archives (Some state) listing = Thrown cause <->
      exists before filename after,
        readArchivedAssetFilenames listing = before ++ filename :: after
        /\ (forall earlier, In earlier before ->
                            ~ Unreadable fsPath archives earlier
                            /\ ~ DruidWithoutIncludeDirs fsPath archives earlier)
        /\ ((cause = SkipTestRaised filename
             /\ Unreadable fsPath archives filename)
            \/ (cause = EnhanceRaised filename
                /\ DruidWithoutIncludeDirs fsPath archives filename)))
  /\ ((exists state' steps,
         unzipDependencies fsPath archives (Some state) listing = Saved state' steps)
      <-> forall filename,
            In filename (readArchivedAssetFilenames listing) ->
            ~ Unreadable fsPath archives filename
            /\ ~ DruidWithoutIncludeDirs fsPath archives filename).
Proof.
  intros Hstale. unfold unzipDependencies. rewrite Hstale.
  assert (Hquiet : forall filename,
             raisedOn fsPath archives filename = None ->
             ~ Unreadable fsPath archives filename
             /\ ~ DruidWithoutIncludeDirs fsPath archives filename).
  { intros filename Hnone.
    destruct (raisedOn_cases filename) as [(_ & Hu & Hd)|[(H & _)|(H & _)]];
      [now split | congruence | congruence]. }
  assert (Hloud : forall filename cause,
             raisedOn fsPath archives filename = Some cause ->
             (cause = SkipTestRaised filename /\ Unreadable fsPath archives filename)
             \/ (cause = EnhanceRaised filename
                 /\ DruidWithoutIncludeDirs fsPath archives filename)).
  { intros filename cause Hsome.
    destruct (raisedOn_cases filename) as [(H & _)|[(H & Hu)|(H & Hd)]];
      [congruence | left | right]; split; congruence || assumption. }
  assert (Hbad : forall filename,
             Unreadable fsPath archives filename
             \/ DruidWithoutIncludeDirs fsPath archives filename ->
             raisedOn fsPath archives filename <> None).
  { intros filename Hbad Hnone. destruct (Hquiet filename Hnone). tauto. }
  destruct (extractEach_ends (readArchivedAssetFilenames listing) [] [])
    as [(g' & s' & -> & Hall)
       |(before & f & after & cause0 & Hsplit & Hbefore & Hf & ->)].
  - rewrite Forall_forall in Hall. split.
    + intros cause. split; [discriminate|].
      intros (before & f & after & Hsplit & _ & Hf). exfalso.
      assert (Hin : In f (readArchivedAssetFilenames listing))
        by (rewrite Hsplit; apply in_or_app; right; now left).
      apply (Hbad f); [|now apply Hall].
      destruct Hf as [[_ H]|[_ H]]; [now left | now right].
    + split; [|intros _; now eexists _, _].
      intros _ filename Hin. apply Hquiet. now apply Hall.
  - rewrite Forall_forall in Hbefore. split.
    + intros cause. split.
      * intros [= <-]. exists before, f, after.
        repeat split; try (apply Hquiet; now apply Hbefore); try exact Hsplit.
        now apply Hloud.
      * intros (before' & f' & after' & Hsplit' & Hbefore' & Hf').
        f_equal.
        assert (Hsame : before' = before /\ f' = f).
        { rewrite Hsplit in Hsplit'. clear Hsplit.
          revert before' Hsplit' Hbefore'.
          induction before as [|e before IHb]; intros before' Hsplit' Hbefore'.
          - destruct before' as [|e' before']; [now injection Hsplit'|].
            injection Hsplit' as <- _. exfalso.
            destruct (Hbefore' f (or_introl eq_refl)) as [Hu Hd].
            destruct (Hloud f cause0 Hf) as [[_ H]|[_ H]]; tauto.
          - destruct before' as [|e' before'].
            + injection Hsplit' as -> _. exfalso.
              apply (Hbad f').
              * destruct Hf' as [[_ H]|[_ H]]; [now left | now right].
              * apply Hbefore. now left.
            + injection Hsplit' as <- Hrest.
              destruct (IHb (fun x Hx => Hbefore x (or_intror Hx)) before' Hrest
                          (fun x Hx => Hbefore' x (or_intror Hx))) as [-> ->].
              now split. }
        destruct Hsame as [-> ->].
        destruct (Hloud f cause0 Hf) as [[-> Hu]|[-> Hd]];
          destruct Hf' as [[-> Hu']|[-> Hd']]; try reflexivity; exfalso.
        -- destruct Hd' as (r & Hr & _). unfold Unreadable in Hu. congruence.
        -- destruct Hd as (r & Hr & _). unfold Unreadable in Hu'. congruence.
    + split.
      * intros (state' & steps & H). discriminate.
      * intros Hnone. exfalso.
        assert (Hin : In f (readArchivedAssetFilenames listing))
          by (rewrite Hsplit; apply in_or_app; right; now left).
        destruct (Hnone f Hin) as [Hu Hd].
        destruct (Hloud f cause0 Hf) as [[_ H]|[_ H]]; tauto.
Qed.

End UnzipDependenciesFacts.

Lemma saved_state_is_up_to_date_witness :
  unzipDependencies ArchiveScenario.fsPath ArchiveScenario.archives
    (Some ArchiveScenario.savedState) (Some ArchiveScenario.listing)
  = AlreadyUpToDate.
Proof.
  apply (saved_state_is_up_to_date ArchiveScenario.fsPath ArchiveScenario.archives
           (Some {| assets := [] |}) (Some ArchiveScenario.listing)
           ArchiveScenario.savedState ArchiveScenario.savedSteps).
  vm_compute. reflexivity.
Defined.

(** ** The edit of the unpacked druid module *)

Lemma druidMutator_cases (content : string) :
  (~ JsText.Contains content "local M = {}" /\ druidMutator content = content)
  \/ (exists pre post,
         content = (pre ++ "local M = {}" ++ post)%string
         /\ druidMutator content
            = (pre ++ "local M = {}" ++ " ---@type druid" ++ post)%string
         /\ forall pre' post',
             content = (pre' ++ "local M = {}" ++ post')%string ->
             String.length pre <= String.length pre').
Proof.
  unfold druidMutator.
  destruct (JsTextFacts.replace_leftmost
              "local M = {}" "local M = {} ---@type druid" content)
    as [H|(pre & post & Hc & Hr & Hmin)]; [now left|].
  right. exists pre, post. repeat split; [exact Hc | | exact Hmin].
  rewrite Hr. reflexivity.
Qed.

(** X14: the edit leaves a file without the line [local M = {}] as it is;
    otherwise it puts the annotation after the leftmost such line and
    nowhere else, which makes the file 15 characters longer, and the edited
    file still holds the line, so editing it again annotates it again. *)
Theorem druidMutator_annotates_leftmost (content : string) :
  (~ JsText.Contains content "local M = {}" -> druidMutator content = content)
  /\ (JsText.Contains content "local M = {}" ->
      (exists pre post,
          content = (pre ++ "local M = {}" ++ post)%string
          /\ (forall pre' post',
                 content = (pre' ++ "local M = {}" ++ post')%string ->
                 String.length pre <= String.length pre')
          /\ druidMutator content
             = (pre ++ "local M = {}" ++ " ---@type druid" ++ post)%string)
      /\ String.length (druidMutator content) = String.length content + 15
      /\ JsText.Contains (druidMutator content) "local M = {}"
      /\ druidMutator (druidMutator content) <> druidMutator content).
Proof.
  assert (Hgrow : forall c,
             JsText.Contains c "local M = {}" ->
             String.length (druidMutator c) = String.length c + 15
             /\ JsText.Contains (druidMutator c) "local M = {}").
  { intros c Hc.
    destruct (druidMutator_cases c) as [[Hno _]|(pre & post & E & Hr & _)];
      [contradiction|].
    rewrite Hr. split.
    - rewrite E. rewrite !JsFacts.string_length_app. cbn [String.length]. lia.
    - now exists pre, (" ---@type druid" ++ post)%string. }
  split.
  - intros Hno.
    destruct (druidMutator_cases content) as [[_ H]|(pre & post & E & _)];
      [exact H|].
    exfalso. apply Hno. now exists pre, post.
  - intros Hc. split; [|split; [|split]].
    + destruct (druidMutator_cases content)
        as [[Hno _]|(pre & post & E & Hr & Hmin)]; [contradiction|].
      now exists pre, post.
    + now apply Hgrow.
    + now apply Hgrow.
    + intros Hsame. destruct (Hgrow content Hc) as [_ Hc'].
      destruct (Hgrow _ Hc') as [Hlen _]. rewrite Hsame in Hlen. lia.
Qed.

Lemma druidMutator_annotates_leftmost_witness :
  String.length (druidMutator ArchiveScenario.druidSource)
  = String.length ArchiveScenario.druidSource + 15.
Proof.
  apply (proj2 (druidMutator_annotates_leftmost ArchiveScenario.druidSource)).
  exists ("-- druid" ++ String (ascii_of_nat 10) EmptyString)%string,
         (String (ascii_of_nat 10) "return M").
  reflexivity.
Defined.

Lemma stale_run_raises_at_first_bad_archive_witness :
  unzipDependencies ArchiveScenario.fsPath ArchiveScenario.bareDruidArchives
    (Some {| assets := [] |}) (Some ArchiveScenario.listing)
  = Thrown (EnhanceRaised ("druid.zip"%string, FileType.File)).
Proof.
  apply (proj1 (stale_run_raises_at_first_bad_archive
                  ArchiveScenario.fsPath ArchiveScenario.bareDruidArchives
                  {| assets := [] |} (Some ArchiveScenario.listing) eq_refl)).
  exists [], ("druid.zip"%string, FileType.File),
         [("teal.zip"%string, FileType.File)].
  split; [reflexivity|]. split; [intros earlier []|].
  right. split; [reflexivity|].
  exists ArchiveScenario.bareDruid. repeat split.
Defined.
